(** * BehaveAI: regeneration of motion annotations

    A shallow embedding of [Regenerate_annotations.py]: the configuration
    loader [load_config] and the frame-window sampler and temporal-difference
    compositor [generate_base_images], with the properties the design
    document states about them; then the mask and label readers, the grey-box
    overlay and the base-name parsing of the same file, and the settings
    comparison of [config_watcher.py], with properties read off the code.

    Conventions.
    - Python integers are [Z]; configured weights and thresholds are the
      rationals [Q] they denote. Where the result depends on how floating
      point rounds, the operation is a parameter: the pixel kernel of
      [cv2.addWeighted] and the corner arithmetic of [get_blocking_boxes].
      [cv2.blend] and [exact_corners] are their exact-arithmetic instances,
      used for the examples and where a statement is about them by name.
    - An 8-bit image plane is the list of its pixel values in row-major order;
      the cv2 operations used by the program act index by index on planes of
      one shape, which is the only case that arises for frames of one video.
    - Code that can raise returns an [outcome]. *)

From Stdlib Require Import ZArith QArith Qround Qminmax Qabs List String Ascii Bool Lia Lqa.
Import ListNotations.
Local Open Scope Z_scope.

(** ** Outcomes: a returned value or a raised exception *)

Inductive exn : Type :=
| ZeroDivisionError
| IndexError
| KeyError
| cv2_error.

Inductive outcome (A : Type) : Type :=
| Return (a : A)
| Raise (e : exn).

Arguments Return {A} a.
Arguments Raise {A} e.

Definition bind {A B : Type} (m : outcome A) (k : A -> outcome B) : outcome B :=
  match m with
  | Return a => k a
  | Raise e => Raise e
  end.

Notation "x <- m ;; k" := (bind m (fun x => k))
  (at level 61, m at next level, right associativity).

(** ** The cv2 and numpy primitives on 8-bit planes *)

Module cv2.

Definition Plane : Type := list Z.
Definition Pixel : Type := (Z * Z * Z)%type.
Definition Image : Type := list Pixel.

Definition is_u8 (x : Z) : Prop := 0 <= x <= 255.

(** [saturate_cast<uchar>] on an integer. *)
Definition saturate_u8 (x : Z) : Z := Z.max 0 (Z.min 255 x).

(** [cvRound]: the nearest integer, ties to the even one. *)
Definition cvRound (q : Q) : Z :=
  let f := Qfloor q in
  match Qcompare (q - inject_Z f) (1 # 2) with
  | Lt => f
  | Gt => f + 1
  | Eq => if Z.even f then f else f + 1
  end.

(** [saturate_cast<uchar>] on a real: round, then clamp to [0,255]. *)
Definition saturate8 (q : Q) : Z := saturate_u8 (cvRound q).

Fixpoint map2 {A B C : Type} (f : A -> B -> C) (la : list A) (lb : list B) : list C :=
  match la, lb with
  | a :: la', b :: lb' => f a b :: map2 f la' lb'
  | _, _ => []
  end.

(** [cv2.absdiff(a, b)]: |a - b| per pixel. *)
Definition absdiff (a b : Plane) : Plane :=
  map2 (fun x y => saturate_u8 (Z.abs (x - y))) a b.

(** [cv2.subtract(a, b)]: a - b per pixel, saturated to 8 bits. *)
Definition subtract (a b : Plane) : Plane :=
  map2 (fun x y => saturate_u8 (x - y)) a b.

(** saturate(x*alpha + y*beta + gamma) with the sum taken in exact
    arithmetic. cv2 takes it in single precision, so this is the library's
    value only where that is exact (weights 0 and 1, for instance); it is
    the kernel the examples run with. *)
Definition blend (alpha beta gamma : Q) (x y : Z) : Z :=
  saturate8 (inject_Z x * alpha + inject_Z y * beta + gamma).

(** [cv2.addWeighted(a, alpha, b, beta, gamma)]: the library's kernel,
    saturate_cast<uchar>(x*alpha + y*beta + gamma) as it computes it,
    applied pixel by pixel. *)
Definition addWeighted (kernel : Q -> Q -> Q -> Z -> Z -> Z)
           (a : Plane) (alpha : Q) (b : Plane) (beta gamma : Q) : Plane :=
  map2 (kernel alpha beta gamma) a b.

(** [cv2.merge([b, g, r])]: three planes into one 3-channel image. *)
Fixpoint merge (b g r : Plane) : Image :=
  match b, g, r with
  | x :: b', y :: g', z :: r' => (x, y, z) :: merge b' g' r'
  | _, _, _ => []
  end.

End cv2.

(** ** Strings: [str.lower] on ASCII *)

Definition lower_ascii (c : ascii) : ascii :=
  let n := nat_of_ascii c in
  if (65 <=? n)%nat && (n <=? 90)%nat then ascii_of_nat (n + 32) else c.

Fixpoint lower (s : string) : string :=
  match s with
  | EmptyString => EmptyString
  | String c s' => String (lower_ascii c) (lower s')
  end.

(** ** Configuration *)

(** The [DEFAULT] section of the settings file, each value already parsed by
    [float], [int] or kept as text; [None] is an absent key. *)
Record Config : Type := {
  cfg_scale_factor : option Q;
  cfg_expA : option Q;
  cfg_expB : option Q;
  cfg_strategy : option string;
  cfg_chromatic_tail_only : option string;
  cfg_lum_weight : option Q;
  cfg_rgb_multipliers : option (list Q);
  cfg_frame_skip : option Z;
  cfg_motion_threshold : option Z;
  cfg_motion_blocks_static : option string;
  cfg_static_blocks_motion : option string;
  cfg_save_empty_frames : option string
}.

(** The [params] dictionary built by [load_config]; every key it sets is a
    field, so the lookups of [generate_base_images] never miss. *)
Record Params : Type := {
  scale_factor : Q;
  expA : Q;
  expB : Q;
  strategy : string;
  chromatic_tail_only : string;
  lum_weight : Q;
  rgb_multipliers : list Q;
  frame_skip : Z;
  motion_threshold : Z;
  motion_blocks_static : string;
  static_blocks_motion : string;
  save_empty_frames : string;
  base_frame_window : Z;
  frame_window : Z
}.

(** [section.get(key, default)] *)
Definition get {A : Type} (v : option A) (default : A) : A :=
  match v with
  | Some a => a
  | None => default
  end.

(** [a > b] on floats. *)
Definition Qgt_bool (a b : Q) : bool := negb (Qle_bool a b).

(** Lines 31-42: the number of sampled frames. *)
Definition compute_base_window (strat : string) (a b : Q) : Z :=
  let base_window := 4 in
  if String.eqb strat "exponential" then
    let base_window := if Qgt_bool a (2 # 10) || Qgt_bool b (2 # 10) then 5 else base_window in
    let base_window := if Qgt_bool a (5 # 10) || Qgt_bool b (5 # 10) then 10 else base_window in
    let base_window := if Qgt_bool a (7 # 10) || Qgt_bool b (7 # 10) then 15 else base_window in
    let base_window := if Qgt_bool a (8 # 10) || Qgt_bool b (8 # 10) then 20 else base_window in
    let base_window := if Qgt_bool a (9 # 10) || Qgt_bool b (9 # 10) then 45 else base_window in
    base_window
  else base_window.

Definition load_config (config : Config) : outcome Params :=
  let scale_factor := get (cfg_scale_factor config) 1%Q in
  let expA := get (cfg_expA config) (5 # 10) in
  let expB := get (cfg_expB config) (8 # 10) in
  let strategy := get (cfg_strategy config) "exponential"%string in
  let chromatic_tail_only := lower (get (cfg_chromatic_tail_only config) "false"%string) in
  let lum_weight := get (cfg_lum_weight config) (7 # 10) in
  match cfg_rgb_multipliers config with
  | None => Raise KeyError
  | Some rgb_multipliers =>
    let frame_skip := get (cfg_frame_skip config) 0 in
    let motion_threshold := -1 * get (cfg_motion_threshold config) 0 in
    let motion_blocks_static := lower (get (cfg_motion_blocks_static config) "false"%string) in
    let static_blocks_motion := lower (get (cfg_static_blocks_motion config) "false"%string) in
    let save_empty_frames := lower (get (cfg_save_empty_frames config) "false"%string) in
    let base_window := compute_base_window strategy expA expB in
    Return {|
      scale_factor := scale_factor;
      expA := expA;
      expB := expB;
      strategy := strategy;
      chromatic_tail_only := chromatic_tail_only;
      lum_weight := lum_weight;
      rgb_multipliers := rgb_multipliers;
      frame_skip := frame_skip;
      motion_threshold := motion_threshold;
      motion_blocks_static := motion_blocks_static;
      static_blocks_motion := static_blocks_motion;
      save_empty_frames := save_empty_frames;
      base_frame_window := base_window;
      frame_window := base_window * (frame_skip + 1)
    |}
  end.

(** ** The frame source *)

(** What [cv2.VideoCapture(video_path)] gives for one file: whether it opened,
    the frame count its header reports, and the frames the decoder can
    actually deliver, in order. *)
Record VideoCapture : Type := {
  isOpened : bool;
  CAP_PROP_FRAME_COUNT : Z;
  decodable : list cv2.Image
}.

(** [cap.set(cv2.CAP_PROP_POS_FRAMES, n)]: the frames left to read. *)
Definition seek (cap : VideoCapture) (n : Z) : list cv2.Image :=
  skipn (Z.to_nat n) (decodable cap).

(** ** generate_base_images *)

Section Regenerate.

(** [cv2.resize(frame, None, fx=s, fy=s)],
    [cv2.cvtColor(frame, cv2.COLOR_BGR2GRAY)] and the per-pixel kernel of
    [cv2.addWeighted] (weights first, then the two pixels) are the
    library's. *)
Variable resize : cv2.Image -> Q -> cv2.Image.
Variable cvtColor_BGR2GRAY : cv2.Image -> cv2.Plane.
Variable addWeighted_u8 : Q -> Q -> Q -> Z -> Z -> Z.

(** *** Window sampler (lines 75-105) *)

Definition step_of (p : Params) : Z := frame_skip p + 1.

Definition start_frame (p : Params) (frame_num : Z) : Z :=
  let step := step_of p in
  let base_N := base_frame_window p in
  let start_frame := frame_num - (base_N - 1) * step in
  Z.max 0 start_frame.

(** The variables of the reading loop; [decode_attempts] counts the calls
    of [cap.read()]. *)
Record Sampler : Type := {
  collected : list cv2.Image;
  read_count : Z;
  idx : Z;
  decode_attempts : nat
}.

Definition init_sampler (start : Z) : Sampler :=
  {| collected := []; read_count := 0; idx := start; decode_attempts := 0 |}.

Definition scaled (p : Params) (frame : cv2.Image) : cv2.Image :=
  if negb (Qeq_bool (scale_factor p) 1) then resize frame (scale_factor p) else frame.

Fixpoint read_loop (p : Params) (total_frames : Z) (cap : list cv2.Image)
         (s : Sampler) {struct cap} : outcome Sampler :=
  let step := step_of p in
  let base_N := base_frame_window p in
  if (Z.of_nat (List.length (collected s)) <? base_N) && (idx s <=? total_frames - 1) then
    match cap with
    | [] =>
      (* ret is False: break *)
      Return {| collected := collected s; read_count := read_count s;
                idx := idx s; decode_attempts := S (decode_attempts s) |}
    | frame :: cap' =>
      if step =? 0 then Raise ZeroDivisionError else
      let collected' :=
        if read_count s mod step =? 0
        then collected s ++ [scaled p frame]
        else collected s in
      let s' := {| collected := collected'; read_count := read_count s + 1;
                   idx := idx s + 1; decode_attempts := S (decode_attempts s) |} in
      if frame_window p + 10 <? read_count s' then Return s'
      else read_loop p total_frames cap' s'
    end
  else Return s.

(** *** Temporal diff engine (lines 116-150) *)

Record Engine : Type := {
  prev_frames : option cv2.Plane * option cv2.Plane * option cv2.Plane;
  static_img : option cv2.Image;
  diffs : option (cv2.Plane * cv2.Plane * cv2.Plane);
  gray : option cv2.Plane
}.

Definition init_engine : Engine :=
  {| prev_frames := (None, None, None); static_img := None;
     diffs := None; gray := None |}.

(** cv2 rejects [None] where it expects an array. *)
Definition array (r : option cv2.Plane) : outcome cv2.Plane :=
  match r with
  | Some a => Return a
  | None => Raise cv2_error
  end.

Definition update_prev_frames (p : Params)
           (prev : option cv2.Plane * option cv2.Plane * option cv2.Plane)
           (g : cv2.Plane)
  : outcome (option cv2.Plane * option cv2.Plane * option cv2.Plane) :=
  let '(r0, r1, r2) := prev in
  if String.eqb (strategy p) "exponential" then
    a1 <- array r1 ;;
    let n1 := cv2.addWeighted addWeighted_u8 a1 (expA p) g (1 - expA p) 0 in
    a2 <- array r2 ;;
    let n2 := cv2.addWeighted addWeighted_u8 a2 (expB p) g (1 - expB p) 0 in
    Return (Some g, Some n1, Some n2)
  else if String.eqb (strategy p) "sequential" then
    Return (Some g, r0, r1)
  else Return (r0, r1, r2).

Definition process_frame (p : Params) (e : Engine) (f : cv2.Image) : outcome Engine :=
  let g := cvtColor_BGR2GRAY f in
  match static_img e with
  | None =>
    Return {| prev_frames := (Some g, Some g, Some g); static_img := Some f;
              diffs := diffs e; gray := Some g |}
  | Some _ =>
    let '(r0, r1, r2) := prev_frames e in
    a0 <- array r0 ;;
    a1 <- array r1 ;;
    a2 <- array r2 ;;
    let current_diffs := (cv2.absdiff a0 g, cv2.absdiff a1 g, cv2.absdiff a2 g) in
    prev' <- update_prev_frames p (prev_frames e) g ;;
    Return {| prev_frames := prev'; static_img := Some f;
              diffs := Some current_diffs; gray := Some g |}
  end.

Fixpoint process_frames (p : Params) (e : Engine) (fs : list cv2.Image) : outcome Engine :=
  match fs with
  | [] => Return e
  | f :: fs' => e' <- process_frame p e f ;; process_frames p e' fs'
  end.

(** *** Motion compositor (lines 160-173) *)

Definition index (l : list Q) (i : nat) : outcome Q :=
  match nth_error l i with
  | Some x => Return x
  | None => Raise IndexError
  end.

Definition motion_image (p : Params) (ds : cv2.Plane * cv2.Plane * cv2.Plane)
           (g : cv2.Plane) : outcome cv2.Image :=
  let '(d0, d1, d2) := ds in
  let bias := inject_Z (motion_threshold p) in
  if String.eqb (chromatic_tail_only p) "true" then
    let tb := cv2.subtract d0 d1 in
    let tr := cv2.subtract d2 d1 in
    let tg := cv2.subtract d1 d0 in
    m2 <- index (rgb_multipliers p) 2 ;;
    let blue := cv2.addWeighted addWeighted_u8 g (lum_weight p) tb m2 bias in
    m1 <- index (rgb_multipliers p) 1 ;;
    let green := cv2.addWeighted addWeighted_u8 g (lum_weight p) tg m1 bias in
    m0 <- index (rgb_multipliers p) 0 ;;
    let red := cv2.addWeighted addWeighted_u8 g (lum_weight p) tr m0 bias in
    Return (cv2.merge blue green red)
  else
    m2 <- index (rgb_multipliers p) 2 ;;
    let blue := cv2.addWeighted addWeighted_u8 g (lum_weight p) d0 m2 bias in
    m1 <- index (rgb_multipliers p) 1 ;;
    let green := cv2.addWeighted addWeighted_u8 g (lum_weight p) d1 m1 bias in
    m0 <- index (rgb_multipliers p) 0 ;;
    let red := cv2.addWeighted addWeighted_u8 g (lum_weight p) d2 m0 bias in
    Return (cv2.merge blue green red).

(** *** The whole function (lines 52-176) *)

Definition absent : option cv2.Image * option cv2.Image := (None, None).

Definition generate_base_images (cap : VideoCapture) (frame_num : Z) (p : Params)
  : outcome (option cv2.Image * option cv2.Image) :=
  if negb (isOpened cap) then Return absent else
  let total_frames := CAP_PROP_FRAME_COUNT cap in
  if total_frames <=? 0 then Return absent else
  let start := start_frame p frame_num in
  if total_frames - 1 <? start then Return absent else
  s <- read_loop p total_frames (seek cap start) (init_sampler start) ;;
  match collected s with
  | [] => Return absent
  | _ :: _ =>
    e <- process_frames p init_engine (collected s) ;;
    match diffs e, gray e with
    | Some ds, Some g =>
      motion_img <- motion_image p ds g ;;
      Return (static_img e, Some motion_img)
    | _, _ => Return absent
    end
  end.

End Regenerate.

(** ** The design document's wording of the same computations *)

(** The sizes a window can have. *)
Definition base_windows : list Z := [4; 5; 10; 15; 20; 45].

(** The window size as a function of the larger decay factor alone. *)
Definition threshold_window (m : Q) : Z :=
  if Qgt_bool m (9 # 10) then 45
  else if Qgt_bool m (8 # 10) then 20
  else if Qgt_bool m (7 # 10) then 15
  else if Qgt_bool m (5 # 10) then 10
  else if Qgt_bool m (2 # 10) then 5
  else 4.

(** The window sampler as the design document words it: starting at
    [startIndex], frames are decoded in order and one is retained when its
    offset from the read start is a multiple of [strideStep], until
    [sampleCount] frames are retained or the source is exhausted. *)
Fixpoint retain_multiples {A : Type} (strideStep offset : Z) (frames : list A) : list A :=
  match frames with
  | [] => []
  | f :: rest =>
    if offset mod strideStep =? 0
    then f :: retain_multiples strideStep (offset + 1) rest
    else retain_multiples strideStep (offset + 1) rest
  end.

(** The frames the source yields from [startIndex] on: those below the
    reported frame count that the decoder delivers. *)
Definition source_from (cap : VideoCapture) (startIndex : Z) : list cv2.Image :=
  firstn (Z.to_nat (CAP_PROP_FRAME_COUNT cap - startIndex)) (seek cap startIndex).

Definition sample (resize : cv2.Image -> Q -> cv2.Image)
           (cap : VideoCapture) (targetFrameIndex : Z) (p : Params) : list cv2.Image :=
  let strideStep := frame_skip p + 1 in
  let sampleCount := base_frame_window p in
  let startIndex := Z.max 0 (targetFrameIndex - (sampleCount - 1) * strideStep) in
  map (scaled resize p)
      (firstn (Z.to_nat sampleCount)
              (retain_multiples strideStep 0 (source_from cap startIndex))).

(** The loop of [generate_base_images], entered as the function enters it. *)
Definition read_window (resize : cv2.Image -> Q -> cv2.Image)
           (cap : VideoCapture) (frame_num : Z) (p : Params) : outcome Sampler :=
  read_loop resize p (CAP_PROP_FRAME_COUNT cap)
            (seek cap (start_frame p frame_num))
            (init_sampler (start_frame p frame_num)).

(** What remains of [generate_base_images] once its three guards are passed. *)
Definition after_guards (resize : cv2.Image -> Q -> cv2.Image)
           (G : cv2.Image -> cv2.Plane) (W : Q -> Q -> Q -> Z -> Z -> Z)
           (cap : VideoCapture) (frame_num : Z) (p : Params)
  : outcome (option cv2.Image * option cv2.Image) :=
  s <- read_window resize cap frame_num p ;;
  match collected s with
  | [] => Return absent
  | _ :: _ =>
    e <- process_frames G W p init_engine (collected s) ;;
    match diffs e, gray e with
    | Some ds, Some g =>
      motion_img <- motion_image W p ds g ;;
      Return (static_img e, Some motion_img)
    | _, _ => Return absent
    end
  end.

(** The references are ready once the first frame of a window has been
    processed: a static image is held and the three buffers are arrays. *)
Definition ready (e : Engine) : Prop :=
  static_img e <> None /\
  exists a0 a1 a2 : cv2.Plane, prev_frames e = (Some a0, Some a1, Some a2).

Definition ref0 (e : Engine) : option cv2.Plane := fst (fst (prev_frames e)).
Definition ref1 (e : Engine) : option cv2.Plane := snd (fst (prev_frames e)).
Definition ref2 (e : Engine) : option cv2.Plane := snd (prev_frames e).

(** The kernel of [cv2.addWeighted] at weights (0, 1) and (1, 0) without
    offset: the sum x*0 + y*1 or x*1 + y*0 is exact in single precision, so
    the library returns the pixel that carries the weight 1. *)
Definition exact_at_unit_weights (W : Q -> Q -> Q -> Z -> Z -> Z) : Prop :=
  forall (alpha beta : Q) (x y : Z),
    cv2.is_u8 x -> cv2.is_u8 y ->
    ((alpha == 0)%Q -> (beta == 1)%Q -> W alpha beta 0%Q x y = y) /\
    ((alpha == 1)%Q -> (beta == 0)%Q -> W alpha beta 0%Q x y = x).

(** A kernel that returns x when it blends x with x at the weights a and
    1 - a: what a scene without motion needs of [cv2.addWeighted] under the
    exponential strategy. *)
Definition keeps_equal_pixels (W : Q -> Q -> Q -> Z -> Z -> Z) (a : Q) : Prop :=
  forall x : Z, cv2.is_u8 x -> W a (1 - a)%Q 0%Q x x = x.

(** Every plane the engine holds has [n] pixels. *)
Definition planes_sized (n : nat) (e : Engine) : Prop :=
  (exists r0 r1 r2,
      prev_frames e = (Some r0, Some r1, Some r2) /\
      List.length r0 = n /\ List.length r1 = n /\ List.length r2 = n) /\
  static_img e <> None /\
  (forall d0 d1 d2, diffs e = Some (d0, d1, d2) ->
                    List.length d0 = n /\ List.length d1 = n /\ List.length d2 = n) /\
  (forall g, gray e = Some g -> List.length g = n).

(** ** Example data

    The end-to-end scenario of the design document: a 10-frame video of
    4x4 solid-colour frames, only frame 5 differing, read at stride 1. *)

(** A luma conversion in 14-bit fixed point, standing for
    [cv2.cvtColor(_, cv2.COLOR_BGR2GRAY)] in the examples. *)
Definition luma (px : cv2.Pixel) : Z :=
  let '(b, g, r) := px in (b * 1868 + g * 9617 + r * 4899 + 8192) / 16384.

Definition example_gray (f : cv2.Image) : cv2.Plane := map luma f.

(** The examples run at scale factor 1, where [cv2.resize] is never called. *)
Definition no_resize (f : cv2.Image) (s : Q) : cv2.Image := f.

Definition solid (v : Z) : cv2.Image := repeat (v, v, v) 16.

Definition example_video : VideoCapture :=
  {| isOpened := true;
     CAP_PROP_FRAME_COUNT := 10;
     decodable := map solid [10; 10; 10; 10; 10; 90; 10; 10; 10; 10] |}.

Definition example_config (strat chroma : string) (a b : Q) : Config :=
  {| cfg_scale_factor := None;
     cfg_expA := Some a;
     cfg_expB := Some b;
     cfg_strategy := Some strat;
     cfg_chromatic_tail_only := Some chroma;
     cfg_lum_weight := None;
     cfg_rgb_multipliers := Some [1%Q; 2%Q; 3%Q];
     cfg_frame_skip := None;
     cfg_motion_threshold := Some 5;
     cfg_motion_blocks_static := None;
     cfg_static_blocks_motion := None;
     cfg_save_empty_frames := None |}.

Definition example_params (strat chroma : string) (a b : Q) (N : Z) : Params :=
  {| scale_factor := 1;
     expA := a;
     expB := b;
     strategy := strat;
     chromatic_tail_only := chroma;
     lum_weight := 7 # 10;
     rgb_multipliers := [1%Q; 2%Q; 3%Q];
     frame_skip := 0;
     motion_threshold := -5;
     motion_blocks_static := "false";
     static_blocks_motion := "false";
     save_empty_frames := "false";
     base_frame_window := N;
     frame_window := N * (0 + 1) |}.

Definition sequential_params : Params :=
  example_params "sequential" "false" (5 # 10) (8 # 10) 4.

Definition chromatic_params : Params :=
  example_params "sequential" "true" (5 # 10) (8 # 10) 4.

Definition single_params : Params :=
  example_params "sequential" "false" (5 # 10) (8 # 10) 1.

(** The engine after the first frame of a window. *)
Definition first_engine (f : cv2.Image) : Engine :=
  {| prev_frames := (Some (example_gray f), Some (example_gray f), Some (example_gray f));
     static_img := Some f; diffs := None; gray := Some (example_gray f) |}.

(** ** Masks and blocking boxes (lines 178-221, 298-306) *)

(** A rectangle (x1, y1, x2, y2) in absolute pixel coordinates. *)
Definition Box : Type := (Z * Z * Z * Z)%type.

(** A numpy image with its width: pixel (x, y) is [data] at y*cols + x. *)
Record Mat : Type := {
  cols : Z;
  data : cv2.Image
}.

Definition grey : cv2.Pixel := (128, 128, 128).

(** The pixels a filled [cv2.rectangle] paints: both corners included, the
    corners in either order. *)
Definition inside (b : Box) (x y : Z) : bool :=
  let '(x1, y1, x2, y2) := b in
  (Z.min x1 x2 <=? x) && (x <=? Z.max x1 x2) &&
  (Z.min y1 y2 <=? y) && (y <=? Z.max y1 y2).

Fixpoint mapi_from {A B : Type} (f : nat -> A -> B) (i : nat) (l : list A) : list B :=
  match l with
  | [] => []
  | a :: l' => f i a :: mapi_from f (S i) l'
  end.

Definition pixel_x (img : Mat) (i : nat) : Z := Z.of_nat i mod cols img.
Definition pixel_y (img : Mat) (i : nat) : Z := Z.of_nat i / cols img.

(** A coordinate the binding can pass to the library as a C int. *)
Definition c_int (z : Z) : bool := (-2147483648 <=? z) && (z <=? 2147483647).

Definition drawable (b : Box) : bool :=
  let '(x1, y1, x2, y2) := b in c_int x1 && c_int y1 && c_int x2 && c_int y2.

(** [cv2.rectangle(img, (x1, y1), (x2, y2), color, -1)], clipped to the
    image; [None] is the exception raised for a coordinate that is not a
    C int. *)
Definition rectangle (img : Mat) (b : Box) (color : cv2.Pixel) : option Mat :=
  if drawable b then
    Some {| cols := cols img;
            data := mapi_from (fun i px => if inside b (pixel_x img i) (pixel_y img i)
                                           then color else px)
                              0 (data img) |}
  else None.

(** The loop body of both functions below: an exception ends the loop. *)
Definition draw_grey (result : option Mat) (b : Box) : option Mat :=
  match result with
  | Some r => rectangle r b grey
  | None => None
  end.

Definition apply_grey_boxes (image : Mat) (boxes : list Box) : option Mat :=
  let result := image in
  fold_left draw_grey boxes (Some result).

Definition apply_blocking_boxes (image : Mat) (boxes : list Box) : option Mat :=
  let result := image in
  fold_left draw_grey boxes (Some result).

(** [out] is [img] with the pixels of [boxes] painted grey. *)
Definition painted (img : Mat) (boxes : list Box) (out : Mat) : Prop :=
  cols out = cols img /\
  List.length (data out) = List.length (data img) /\
  forall i : nat,
    nth_error (data out) i =
    option_map (fun px => if existsb (fun b => inside b (pixel_x img i) (pixel_y img i)) boxes
                          then grey else px)
               (nth_error (data img) i).

(** [int(x)] on a float, in exact arithmetic: truncation toward zero. *)
Definition int_of_float (q : Q) : Z := Z.quot (Qnum q) (Z.pos (Qden q)).

(** Lines 213-219 in exact arithmetic: one label (centre and size, as
    fractions of the image) to absolute corners. *)
Definition label_box (img_w img_h : Z) (xc yc w h : Q) : Box :=
  (int_of_float ((xc - w / 2) * inject_Z img_w),
   int_of_float ((yc - h / 2) * inject_Z img_h),
   int_of_float ((xc + w / 2) * inject_Z img_w),
   int_of_float ((yc + h / 2) * inject_Z img_h)).

(** The corner computation over exact rationals, where [int] never raises. *)
Definition exact_corners (img_w img_h : Z) (xc yc w h : Q) : option Box :=
  Some (label_box img_w img_h xc yc w h).

(** [parts[i]] of a line already split into its fields. *)
Definition field (parts : list string) (i : nat) : string := nth i parts EmptyString.

Section Labels.

(** [float(text)] and [int(text)]; [None] stands for the ValueError they
    raise. [F] is the type of Python floats. *)
Variable F : Type.
Variable float : string -> option F.
Variable int : string -> option Z.

(** Lines 213-217: the corners int((xc - w/2) * img_w), int((yc - h/2) * img_h),
    int((xc + w/2) * img_w), int((yc + h/2) * img_h) as double arithmetic
    gives them; [None] is the OverflowError or ValueError of [int] on an
    infinite or NaN product. *)
Variable corners : Z -> Z -> F -> F -> F -> F -> option Box.

(** The loop of [get_blocking_boxes] over the lines of the file, each line
    given as [line.split()]; [None] is an exception escaping the function. *)
Fixpoint label_loop (img_w img_h : Z) (lines : list (list string)) (boxes : list Box)
  : option (list Box) :=
  match lines with
  | [] => Some boxes
  | parts :: rest =>
    if (List.length parts <? 5)%nat then label_loop img_w img_h rest boxes
    else
      match float (field parts 1), float (field parts 2),
            float (field parts 3), float (field parts 4) with
      | Some xc, Some yc, Some w, Some h =>
        match corners img_w img_h xc yc w h with
        | Some box => label_loop img_w img_h rest (boxes ++ [box])
        | None => None
        end
      | _, _, _, _ => None
      end
  end.

(** [label_file] is [None] when [os.path.exists(label_path)] is false. *)
Definition get_blocking_boxes (label_file : option (list (list string)))
           (img_w img_h : Z) : option (list Box) :=
  match label_file with
  | Some lines => label_loop img_w img_h lines []
  | None => Some []
  end.

(** The loop of [read_mask_file]. *)
Fixpoint mask_loop (lines : list (list string)) (boxes : list Box) : option (list Box) :=
  match lines with
  | [] => Some boxes
  | parts :: rest =>
    if (List.length parts =? 4)%nat then
      match int (field parts 0), int (field parts 1),
            int (field parts 2), int (field parts 3) with
      | Some x1, Some y1, Some x2, Some y2 =>
        mask_loop rest (boxes ++ [(x1, y1, x2, y2)])
      | _, _, _, _ => None
      end
    else mask_loop rest boxes
  end.

Definition read_mask_file (mask_file : option (list (list string))) : option (list Box) :=
  match mask_file with
  | Some lines => mask_loop lines []
  | None => Some []
  end.

(** Lines 298-306 of [regenerate_annotations]: the image that is written;
    [None] is an exception escaping the item. *)
Definition motion_final (p : Params) (motion_img : Mat) (motion_mask_boxes : list Box)
           (static_label_file : option (list (list string))) (img_w img_h : Z)
  : option Mat :=
  let motion_final := motion_img in
  match apply_grey_boxes motion_final motion_mask_boxes with
  | None => None
  | Some motion_final =>
    if String.eqb (static_blocks_motion p) "true" then
      match get_blocking_boxes static_label_file img_w img_h with
      | Some static_boxes => apply_blocking_boxes motion_final static_boxes
      | None => None
      end
    else Some motion_final
  end.

End Labels.

Arguments label_loop {F} float corners img_w img_h lines boxes.
Arguments get_blocking_boxes {F} float corners label_file img_w img_h.
Arguments motion_final {F} float corners p motion_img motion_mask_boxes static_label_file img_w img_h.

(** What one line of five or more fields contributes: its box, or [None]
    when a field is not a number or the corner computation raises. *)
Definition label_of {F : Type} (float : string -> option F)
           (corners : Z -> Z -> F -> F -> F -> F -> option Box)
           (img_w img_h : Z) (parts : list string) : option Box :=
  match float (field parts 1), float (field parts 2),
        float (field parts 3), float (field parts 4) with
  | Some xc, Some yc, Some w, Some h => corners img_w img_h xc yc w h
  | _, _, _, _ => None
  end.

(** ** Work items (lines 250-256) *)

(** [s.split(sep)] for a one-character separator. *)
Fixpoint split_on (sep : ascii) (s : string) : list string :=
  match s with
  | EmptyString => [EmptyString]
  | String c s' =>
    if Ascii.eqb c sep then EmptyString :: split_on sep s'
    else match split_on sep s' with
         | part :: parts => String c part :: parts
         | [] => [String c EmptyString]
         end
  end.

(** [sep.join(parts)] *)
Fixpoint join (sep : string) (parts : list string) : string :=
  match parts with
  | [] => EmptyString
  | [x] => x
  | x :: rest => (x ++ sep ++ join sep rest)%string
  end.

(** Lines 250-256: video name and frame number of a label's base name;
    [None] when the trailing token is not an integer and the item is
    skipped. *)
Definition parse_base_name (int : string -> option Z) (base_name : string)
  : option (string * Z) :=
  let parts := split_on "_" base_name in
  match int (last parts EmptyString) with
  | Some frame_num => Some (join "_" (removelast parts), frame_num)
  | None => None
  end.

(** A label whose box lies in the unit square; a box that lies in the image. *)
Definition normalised (xc yc w h : Q) : Prop :=
  (0 <= w /\ 0 <= h /\
   0 <= xc - w / 2 /\ xc + w / 2 <= 1 /\
   0 <= yc - h / 2 /\ yc + h / 2 <= 1)%Q.

Definition within (img_w img_h : Z) (b : Box) : Prop :=
  let '(x1, y1, x2, y2) := b in
  0 <= x1 <= x2 /\ x2 <= img_w /\ 0 <= y1 <= y2 /\ y2 <= img_h.

(** ** config_watcher.py: has the motion configuration changed? *)

Definition RELEVANT_KEYS : list string :=
  ["frame_skip"; "motion_threshold"; "strategy"; "chromatic_tail_only";
   "expA"; "expB"; "lum_weight"; "rgb_multipliers"]%string.

Section ConfigWatcher.

(** Python floats, with the one test the module makes on them:
    [abs(x - y) > FLOAT_TOL]. *)
Variable F : Type.
Variable far : F -> F -> bool.

(** The values a settings dictionary holds. *)
Inductive value : Type :=
| VInt (z : Z)
| VFloat (x : F)
| VStr (s : string)
| VList (l : list F).

(** [float(n)] and [float(text)], [None] when they raise;
    [str(v).strip().lower()]; [int(text)]; [text.strip().lower()];
    [text.strip()]. *)
Variable float_of_int : Z -> option F.
Variable float_of_str : string -> option F.
Variable text : value -> string.
Variable int_of_str : string -> option Z.
Variable normalise : string -> string.
Variable strip : string -> string.

(** A dictionary, as far as [k in d] and [d[k]] go. *)
Definition dict : Type := string -> option value.

Definition to_float (v : value) : option F :=
  match v with
  | VInt z => float_of_int z
  | VFloat x => Some x
  | VStr s => float_of_str s
  | VList _ => None
  end.

(** The loop over [zip(va, vb)]. *)
Fixpoint lists_differ (va vb : list F) : bool :=
  match va, vb with
  | x :: va', y :: vb' => if far x y then true else lists_differ va' vb'
  | _, _ => false
  end.

(** The body of the loop of [settings_different] for one key: [true] is
    [return True], [false] is [continue]. *)
Definition values_differ (va vb : value) : bool :=
  match va, vb with
  | VList la, VList lb =>
    if negb (List.length la =? List.length lb)%nat then true else lists_differ la lb
  | _, _ =>
    match to_float va, to_float vb with
    | Some fa, Some fb => far fa fb
    | _, _ => negb (String.eqb (text va) (text vb))
    end
  end.

Fixpoint settings_loop (keys : list string) (a b : dict) : bool :=
  match keys with
  | [] => false
  | k :: rest =>
    match a k, b k with
    | Some va, Some vb =>
      if values_differ va vb then true else settings_loop rest a b
    | _, _ => true
    end
  end.

Definition settings_different (a b : dict) : bool :=
  settings_loop RELEVANT_KEYS a b.

(** [_parse_rgb_multipliers]: [None] is the ValueError of [float]. *)
Fixpoint floats_of (parts : list string) : option (list F) :=
  match parts with
  | [] => Some []
  | part :: rest =>
    match float_of_str part with
    | Some x => option_map (cons x) (floats_of rest)
    | None => None
    end
  end.

Definition parse_rgb_multipliers (s : string) : option (list F) :=
  let parts :=
      map strip (filter (fun part => negb (String.eqb (strip part) EmptyString))
                        (split_on "," s)) in
  floats_of parts.

Definition lookup (entries : list (string * value)) : dict :=
  fun k =>
    match find (fun entry => String.eqb (fst entry) k) entries with
    | Some entry => Some (snd entry)
    | None => None
    end.

(** [read_motion_settings] on the section it reads, [sec.get(key, default)]
    being [get (sec key) default]; [None] is a ValueError. *)
Definition read_motion_settings (sec : string -> option string) : option dict :=
  match int_of_str (get (sec "frame_skip"%string) "0"%string),
        int_of_str (get (sec "motion_threshold"%string) "0"%string),
        float_of_str (get (sec "expA"%string) "0.5"%string),
        float_of_str (get (sec "expB"%string) "0.8"%string),
        float_of_str (get (sec "lum_weight"%string) "0.7"%string),
        parse_rgb_multipliers (get (sec "rgb_multipliers"%string) "1.0,1.0,1.0"%string)
  with
  | Some frame_skip, Some motion_threshold, Some a, Some b, Some lum_weight, Some rgb =>
    Some (lookup
            [("frame_skip"%string, VInt frame_skip);
             ("motion_threshold"%string, VInt motion_threshold);
             ("strategy"%string,
              VStr (normalise (get (sec "strategy"%string) "exponential"%string)));
             ("chromatic_tail_only"%string,
              VStr (normalise (get (sec "chromatic_tail_only"%string) "false"%string)));
             ("expA"%string, VFloat a);
             ("expB"%string, VFloat b);
             ("lum_weight"%string, VFloat lum_weight);
             ("rgb_multipliers"%string, VList rgb)])
  | _, _, _, _, _, _ => None
  end.

End ConfigWatcher.

Arguments VInt {F} z.
Arguments VFloat {F} x.
Arguments VStr {F} s.
Arguments VList {F} l.

(** ** More example data *)

Definition make_params (strat chroma : string) (skip N : Z) (rgb : list Q) : Params :=
  {| scale_factor := 1;
     expA := 5 # 10;
     expB := 8 # 10;
     strategy := strat;
     chromatic_tail_only := chroma;
     lum_weight := 7 # 10;
     rgb_multipliers := rgb;
     frame_skip := skip;
     motion_threshold := -5;
     motion_blocks_static := "false";
     static_blocks_motion := "true";
     save_empty_frames := "false";
     base_frame_window := N;
     frame_window := N * (skip + 1) |}.

(** Settings whose weights are dyadic and whose multipliers are whole: on
    them the weighted sums are exact in single precision as well, so
    [cv2.blend] is the library's kernel. *)
Definition dyadic_config (strat chroma : string) : Config :=
  {| cfg_scale_factor := None;
     cfg_expA := Some (1 # 2);
     cfg_expB := Some (1 # 4);
     cfg_strategy := Some strat;
     cfg_chromatic_tail_only := Some chroma;
     cfg_lum_weight := Some (1 # 2);
     cfg_rgb_multipliers := Some [1%Q; 3%Q; 2%Q];
     cfg_frame_skip := None;
     cfg_motion_threshold := Some 5;
     cfg_motion_blocks_static := None;
     cfg_static_blocks_motion := None;
     cfg_save_empty_frames := None |}.

Definition dyadic_params (strat chroma : string) (N : Z) : Params :=
  {| scale_factor := 1;
     expA := 1 # 2;
     expB := 1 # 4;
     strategy := strat;
     chromatic_tail_only := chroma;
     lum_weight := 1 # 2;
     rgb_multipliers := [1%Q; 3%Q; 2%Q];
     frame_skip := 0;
     motion_threshold := -5;
     motion_blocks_static := "false";
     static_blocks_motion := "false";
     save_empty_frames := "false";
     base_frame_window := N;
     frame_window := N * (0 + 1) |}.

(** Six frames of one unchanging scene. *)
Definition still_video : VideoCapture :=
  {| isOpened := true;
     CAP_PROP_FRAME_COUNT := 6;
     decodable := repeat (solid 100) 6 |}.

(** Ten frames, each brighter than the one before. *)
Definition ramp_video : VideoCapture :=
  {| isOpened := true;
     CAP_PROP_FRAME_COUNT := 10;
     decodable := map solid [10; 20; 30; 40; 50; 60; 70; 80; 90; 100] |}.

(** A 4x3 image and two boxes on it. *)
Definition example_mat : Mat :=
  {| cols := 4; data := repeat (1, 2, 3) 12 |}.

Definition example_boxes : list Box := [(0, 0, 1, 1); (3, 2, 2, 1)].

(** Parsers that know the few literals the examples use. *)
Definition example_float (s : string) : option Q :=
  if String.eqb s "0.5" then Some (5 # 10)
  else if String.eqb s "0.8" then Some (8 # 10)
  else if String.eqb s "0.7" then Some (7 # 10)
  else if String.eqb s "0.25" then Some (25 # 100)
  else if String.eqb s "1.0" then Some 1%Q
  else None.

Definition example_int (s : string) : option Z :=
  if String.eqb s "0" then Some 0
  else if String.eqb s "1" then Some 1
  else if String.eqb s "2" then Some 2
  else if String.eqb s "3" then Some 3
  else if String.eqb s "12" then Some 12
  else None.

Definition example_labels : list (list string) :=
  [["0"; "0.5"; "0.5"; "0.5"; "0.25"]; ["note"]; ["1"; "0.25"; "0.8"; "0.5"; "0.25"]]%string.

Definition example_mask : list (list string) :=
  [["0"; "0"; "1"; "1"]; ["0"; "0"; "1"; "1"; "2"]; []; ["3"; "2"; "2"; "1"]]%string.

(** [abs(x - y) > 1e-6] on rationals. *)
Definition far_Q (x y : Q) : bool := Qgt_bool (Qabs (x - y)) (1 # 1000000).

Definition example_text (v : value Q) : string :=
  match v with
  | VStr s => lower s
  | _ => EmptyString
  end.

Definition example_section (k : string) : option string :=
  if String.eqb k "strategy" then Some "Sequential"%string
  else if String.eqb k "frame_skip" then Some "2"%string
  else None.

Definition float_of_int_Q (z : Z) : option Q := Some (inject_Z z).

Definition example_settings (skip : Z) (strat : string) (a : Q) : dict Q :=
  lookup Q [("frame_skip"%string, VInt skip);
            ("motion_threshold"%string, VInt 5);
            ("strategy"%string, VStr strat);
            ("chromatic_tail_only"%string, VStr "false");
            ("expA"%string, VFloat a);
            ("expB"%string, VFloat (8 # 10));
            ("lum_weight"%string, VFloat (7 # 10));
            ("rgb_multipliers"%string, VList [1%Q; 2%Q; 3%Q])].

(** * Properties *)

(** ** load_config *)

Lemma Qgt_bool_lt (a t : Q) : Qgt_bool a t = true <-> (t < a)%Q.
Proof.
  unfold Qgt_bool. rewrite negb_true_iff. split; intro H.
  - apply Qnot_le_lt. intro L. apply Qle_bool_iff in L. congruence.
  - destruct (Qle_bool a t) eqn:E; [|reflexivity].
    apply Qle_bool_iff in E. exfalso. apply (Qlt_not_le _ _ H E).
Qed.

Lemma Qgt_bool_le (a t : Q) : Qgt_bool a t = false <-> (a <= t)%Q.
Proof.
  unfold Qgt_bool. rewrite negb_false_iff. apply Qle_bool_iff.
Qed.

Lemma Qgt_bool_max (a b t : Q) :
  Qgt_bool a t || Qgt_bool b t = Qgt_bool (Qmax a b) t.
Proof.
  destruct (Qgt_bool (Qmax a b) t) eqn:E.
  - apply Qgt_bool_lt in E. apply Q.max_lt_iff in E.
    apply orb_true_iff. destruct E as [E|E]; [left|right]; now apply Qgt_bool_lt.
  - apply Qgt_bool_le in E. apply orb_false_iff.
    split; apply Qgt_bool_le; (eapply Qle_trans; [|exact E]).
    + apply Q.le_max_l.
    + apply Q.le_max_r.
Qed.

Ltac split_threshold :=
  match goal with
  | |- context [Qgt_bool ?m ?t] =>
    let E := fresh "E" in
    destruct (Qgt_bool m t) eqn:E;
    [apply Qgt_bool_lt in E | apply Qgt_bool_le in E]
  end.

Lemma compute_base_window_exponential (a b : Q) :
  compute_base_window "exponential" a b = threshold_window (Qmax a b).
Proof.
  unfold compute_base_window, threshold_window. simpl String.eqb. cbv zeta.
  rewrite !Qgt_bool_max.
  repeat split_threshold; try reflexivity; exfalso; lra.
Qed.

Lemma compute_base_window_other (strat : string) (a b : Q) :
  strat <> "exponential"%string -> compute_base_window strat a b = 4.
Proof.
  intro H. unfold compute_base_window.
  destruct (String.eqb strat "exponential") eqn:E; [|reflexivity].
  apply String.eqb_eq in E. contradiction.
Qed.

Lemma threshold_window_in (m : Q) : In (threshold_window m) base_windows.
Proof.
  unfold threshold_window, base_windows.
  repeat split_threshold; simpl; tauto.
Qed.

Lemma threshold_window_mono (m m' : Q) :
  (m <= m')%Q -> threshold_window m <= threshold_window m'.
Proof.
  intro H. unfold threshold_window.
  repeat split_threshold; try lia; exfalso; lra.
Qed.

Lemma compute_base_window_in (strat : string) (a b : Q) :
  In (compute_base_window strat a b) base_windows.
Proof.
  destruct (string_dec strat "exponential") as [->|N].
  - rewrite compute_base_window_exponential. apply threshold_window_in.
  - rewrite compute_base_window_other by assumption. simpl. tauto.
Qed.

Lemma load_config_fields (config : Config) (p : Params) :
  load_config config = Return p ->
  base_frame_window p = compute_base_window (strategy p) (expA p) (expB p) /\
  frame_window p = base_frame_window p * (frame_skip p + 1) /\
  motion_threshold p = - get (cfg_motion_threshold config) 0 /\
  cfg_rgb_multipliers config = Some (rgb_multipliers p).
Proof.
  unfold load_config. destruct (cfg_rgb_multipliers config) as [rgb|]; [|discriminate].
  intro H. injection H as <-. simpl. repeat split; lia.
Qed.

(** C10. Every parameter set returned by [load_config] has
    [frame_window = base_frame_window * (frame_skip + 1)]; its
    [base_frame_window] is one of 4, 5, 10, 15, 20, 45 and at least 4; it is 4
    for the sequential strategy, and for the exponential strategy it is
    decided by the thresholds 0.2, 0.5, 0.7, 0.8, 0.9 on max(expA, expB) and
    never decreases when that maximum grows. *)
Theorem load_config_window_invariant (config : Config) (p : Params) :
  load_config config = Return p ->
  frame_window p = base_frame_window p * (frame_skip p + 1) /\
  In (base_frame_window p) [4; 5; 10; 15; 20; 45] /\
  4 <= base_frame_window p /\
  (strategy p = "sequential"%string -> base_frame_window p = 4) /\
  (strategy p = "exponential"%string ->
   base_frame_window p = threshold_window (Qmax (expA p) (expB p))) /\
  (forall (config' : Config) (p' : Params),
      load_config config' = Return p' ->
      strategy p = "exponential"%string ->
      strategy p' = "exponential"%string ->
      (Qmax (expA p) (expB p) <= Qmax (expA p') (expB p'))%Q ->
      base_frame_window p <= base_frame_window p').
Proof.
  intro H. destruct (load_config_fields config p H) as (Hb & Hw & _ & _).
  assert (Hin : In (base_frame_window p) base_windows)
    by (rewrite Hb; apply compute_base_window_in).
  split; [exact Hw|]. split; [exact Hin|]. split.
  { unfold base_windows in Hin. simpl in Hin. lia. }
  split.
  { intro S. rewrite Hb, S. reflexivity. }
  split.
  { intro S. rewrite Hb, S. apply compute_base_window_exponential. }
  intros config' p' H' S S' Hm.
  destruct (load_config_fields config' p' H') as (Hb' & _).
  rewrite Hb, Hb', S, S', !compute_base_window_exponential.
  now apply threshold_window_mono.
Qed.

(** ** Pointwise facts about the cv2 primitives *)

Lemma saturate_u8_id (x : Z) : cv2.is_u8 x -> cv2.saturate_u8 x = x.
Proof. unfold cv2.is_u8, cv2.saturate_u8. lia. Qed.

Lemma saturate_u8_range (x : Z) : cv2.is_u8 (cv2.saturate_u8 x).
Proof. unfold cv2.is_u8, cv2.saturate_u8. lia. Qed.

Lemma cvRound_integer (q : Q) (z : Z) : (q == inject_Z z)%Q -> cv2.cvRound q = z.
Proof.
  intro H. unfold cv2.cvRound.
  assert (F : Qfloor q = z) by (rewrite H; apply Qfloor_Z).
  rewrite F.
  assert (L : (q - inject_Z z < 1 # 2)%Q) by (rewrite H; lra).
  destruct (Qcompare_spec (q - inject_Z z) (1 # 2)) as [E|E|E];
    [exfalso; lra | reflexivity | exfalso; lra].
Qed.

Lemma saturate8_integer (q : Q) (z : Z) :
  (q == inject_Z z)%Q -> cv2.is_u8 z -> cv2.saturate8 q = z.
Proof.
  intros H U. unfold cv2.saturate8.
  rewrite (cvRound_integer q z H). now apply saturate_u8_id.
Qed.

Lemma blend_keeps_second (alpha beta : Q) (x y : Z) :
  (alpha == 0)%Q -> (beta == 1)%Q -> cv2.is_u8 y -> cv2.blend alpha beta 0 x y = y.
Proof.
  intros A B U. unfold cv2.blend. apply saturate8_integer; [|exact U].
  rewrite A, B. ring.
Qed.

Lemma blend_keeps_first (alpha beta : Q) (x y : Z) :
  (alpha == 1)%Q -> (beta == 0)%Q -> cv2.is_u8 x -> cv2.blend alpha beta 0 x y = x.
Proof.
  intros A B U. unfold cv2.blend. apply saturate8_integer; [|exact U].
  rewrite A, B. ring.
Qed.

Lemma map2_second {A B : Type} (f : A -> B -> B) (P : B -> Prop) :
  (forall a b, P b -> f a b = b) ->
  forall (la : list A) (lb : list B),
    List.length la = List.length lb -> Forall P lb -> cv2.map2 f la lb = lb.
Proof.
  intros Hf la. induction la as [|a la IH]; intros [|b lb] L F; simpl in *;
    try reflexivity; try discriminate.
  inversion F; subst. f_equal; [now apply Hf | apply IH; [lia | assumption]].
Qed.

Lemma map2_first {A B : Type} (f : A -> B -> A) (P : A -> Prop) :
  (forall a b, P a -> f a b = a) ->
  forall (la : list A) (lb : list B),
    List.length la = List.length lb -> Forall P la -> cv2.map2 f la lb = la.
Proof.
  intros Hf la. induction la as [|a la IH]; intros [|b lb] L F; simpl in *;
    try reflexivity; try discriminate.
  inversion F; subst. f_equal; [now apply Hf | apply IH; [lia | assumption]].
Qed.

Lemma blend_exact_at_unit_weights : exact_at_unit_weights cv2.blend.
Proof.
  intros alpha beta x y Ux Uy. split; intros A B.
  - now apply blend_keeps_second.
  - now apply blend_keeps_first.
Qed.

Lemma map2_agree {A B C : Type} (f h : A -> B -> C) (P : A -> Prop) (R : B -> Prop) :
  (forall a b, P a -> R b -> f a b = h a b) ->
  forall (la : list A) (lb : list B),
    Forall P la -> Forall R lb -> cv2.map2 f la lb = cv2.map2 h la lb.
Proof.
  intros Hf la. induction la as [|a la IH]; intros [|b lb] Fa Fb; simpl;
    try reflexivity.
  inversion Fa; subst. inversion Fb; subst.
  f_equal; [now apply Hf | now apply IH].
Qed.

Section UnitWeights.

Variable W : Q -> Q -> Q -> Z -> Z -> Z.
Hypothesis W_exact : exact_at_unit_weights W.

Lemma addWeighted_full_replacement (a b : cv2.Plane) (alpha beta : Q) :
  (alpha == 0)%Q -> (beta == 1)%Q ->
  List.length a = List.length b -> Forall cv2.is_u8 a -> Forall cv2.is_u8 b ->
  cv2.addWeighted W a alpha b beta 0 = b.
Proof.
  intros A B L Ua Ub. unfold cv2.addWeighted.
  rewrite (map2_agree (W alpha beta 0) (fun _ y => y) cv2.is_u8 cv2.is_u8).
  - apply (map2_second (fun (_ y : Z) => y) (fun _ => True)); auto.
    clear. induction b; constructor; auto.
  - intros x y Ux Uy. now apply (W_exact alpha beta x y Ux Uy).
  - exact Ua.
  - exact Ub.
Qed.

Lemma addWeighted_no_change (a b : cv2.Plane) (alpha beta : Q) :
  (alpha == 1)%Q -> (beta == 0)%Q ->
  List.length a = List.length b -> Forall cv2.is_u8 a -> Forall cv2.is_u8 b ->
  cv2.addWeighted W a alpha b beta 0 = a.
Proof.
  intros A B L Ua Ub. unfold cv2.addWeighted.
  rewrite (map2_agree (W alpha beta 0) (fun x _ => x) cv2.is_u8 cv2.is_u8).
  - apply (map2_first (fun (x _ : Z) => x) (fun _ => True)); auto.
    clear. induction a; constructor; auto.
  - intros x y Ux Uy. now apply (W_exact alpha beta x y Ux Uy).
  - exact Ua.
  - exact Ub.
Qed.

End UnitWeights.

(** ** The temporal diff engine *)

Section EngineProperties.

Variable G : cv2.Image -> cv2.Plane.
Variable W : Q -> Q -> Q -> Z -> Z -> Z.

Lemma process_first_frame (p : Params) (f : cv2.Image) :
  process_frame G W p init_engine f =
  Return {| prev_frames := (Some (G f), Some (G f), Some (G f));
            static_img := Some f; diffs := None; gray := Some (G f) |}.
Proof. reflexivity. Qed.

Lemma process_frame_ready (p : Params) (e : Engine) (f : cv2.Image)
      (a0 a1 a2 : cv2.Plane) :
  static_img e <> None ->
  prev_frames e = (Some a0, Some a1, Some a2) ->
  exists prev',
    update_prev_frames W p (prev_frames e) (G f) = Return prev' /\
    (exists b0 b1 b2, prev' = (Some b0, Some b1, Some b2)) /\
    process_frame G W p e f =
    Return {| prev_frames := prev'; static_img := Some f;
              diffs := Some (cv2.absdiff a0 (G f), cv2.absdiff a1 (G f),
                             cv2.absdiff a2 (G f));
              gray := Some (G f) |}.
Proof.
  intros Hs Hp. unfold process_frame.
  destruct (static_img e) as [s|]; [|contradiction].
  rewrite Hp. unfold update_prev_frames. simpl.
  destruct (String.eqb (strategy p) "exponential");
    [|destruct (String.eqb (strategy p) "sequential")];
    simpl; eexists; (split; [reflexivity|]); (split; [|reflexivity]);
    do 3 eexists; reflexivity.
Qed.

Lemma process_frame_keeps_ready (p : Params) (e : Engine) (f : cv2.Image) :
  ready e ->
  exists e', process_frame G W p e f = Return e' /\ ready e' /\
             diffs e' <> None /\ gray e' = Some (G f) /\ static_img e' = Some f.
Proof.
  intros [Hs (a0 & a1 & a2 & Hp)].
  destruct (process_frame_ready p e f a0 a1 a2 Hs Hp) as (prev' & _ & (b0 & b1 & b2 & Hb) & Hr).
  eexists. split; [exact Hr|]. simpl. repeat split; try discriminate.
  now exists b0, b1, b2.
Qed.

Lemma process_frames_app (p : Params) (l1 l2 : list cv2.Image) :
  forall e : Engine,
    process_frames G W p e (l1 ++ l2) =
    (e' <- process_frames G W p e l1 ;; process_frames G W p e' l2).
Proof.
  induction l1 as [|f l1 IH]; intro e; simpl; [reflexivity|].
  destruct (process_frame G W p e f) as [e'|x]; simpl; [apply IH | reflexivity].
Qed.

Lemma process_frames_keeps_ready (p : Params) (fs : list cv2.Image) :
  forall e : Engine,
    ready e -> exists e', process_frames G W p e fs = Return e' /\ ready e'.
Proof.
  induction fs as [|f fs IH]; intros e R; simpl.
  - now exists e.
  - destruct (process_frame_keeps_ready p e f R) as (e1 & H1 & R1 & _).
    rewrite H1. simpl. now apply IH.
Qed.

Lemma ready_after_first (f : cv2.Image) :
  ready {| prev_frames := (Some (G f), Some (G f), Some (G f));
           static_img := Some f; diffs := None; gray := Some (G f) |}.
Proof.
  split; [discriminate|]. now exists (G f), (G f), (G f).
Qed.

Lemma sequential_step (p : Params) (e : Engine) (f : cv2.Image)
      (a0 a1 a2 : cv2.Plane) :
  strategy p = "sequential"%string ->
  static_img e <> None ->
  prev_frames e = (Some a0, Some a1, Some a2) ->
  exists e', process_frame G W p e f = Return e' /\ static_img e' <> None /\
             prev_frames e' = (Some (G f), Some a0, Some a1).
Proof.
  intros S Hs Hp.
  destruct (process_frame_ready p e f a0 a1 a2 Hs Hp) as (prev' & Hu & _ & Hr).
  rewrite Hp in Hu. unfold update_prev_frames in Hu. rewrite S in Hu.
  simpl in Hu. injection Hu as <-.
  eexists. split; [exact Hr|]. simpl. split; [discriminate | reflexivity].
Qed.

(** C3. Sequential strategy: once at least three frames have been processed
    after the initialising one, the references hold, in this order, the
    grayscale of the current frame, of the frame one step before and of the
    frame two steps before, exactly; and at every step of a window the three
    differences are taken against the references as they stood before that
    step's update. *)
Theorem sequential_shift_register (p : Params) :
  strategy p = "sequential"%string ->
  (forall (f0 : cv2.Image) (pre : list cv2.Image) (a b c : cv2.Image),
      exists e,
        process_frames G W p init_engine (f0 :: pre ++ [a; b; c]) = Return e /\
        prev_frames e = (Some (G c), Some (G b), Some (G a))) /\
  (forall (f0 : cv2.Image) (mid : list cv2.Image) (f : cv2.Image),
      exists e e' r0 r1 r2,
        process_frames G W p init_engine (f0 :: mid) = Return e /\
        prev_frames e = (Some r0, Some r1, Some r2) /\
        process_frame G W p e f = Return e' /\
        diffs e' = Some (cv2.absdiff r0 (G f), cv2.absdiff r1 (G f),
                         cv2.absdiff r2 (G f))).
Proof.
  intro S. split.
  - intros f0 pre a b c. simpl. rewrite process_frames_app.
    destruct (process_frames_keeps_ready p pre _ (ready_after_first f0))
      as (e1 & H1 & Hs1 & (x0 & x1 & x2 & Hp1)).
    rewrite H1. simpl.
    destruct (sequential_step p e1 a x0 x1 x2 S Hs1 Hp1) as (e2 & H2 & Hs2 & Hp2).
    rewrite H2. simpl.
    destruct (sequential_step p e2 b _ _ _ S Hs2 Hp2) as (e3 & H3 & Hs3 & Hp3).
    rewrite H3. simpl.
    destruct (sequential_step p e3 c _ _ _ S Hs3 Hp3) as (e4 & H4 & Hs4 & Hp4).
    rewrite H4. simpl. now exists e4.
  - intros f0 mid f. simpl.
    destruct (process_frames_keeps_ready p mid _ (ready_after_first f0))
      as (e1 & H1 & Hs1 & (x0 & x1 & x2 & Hp1)).
    destruct (process_frame_ready p e1 f x0 x1 x2 Hs1 Hp1) as (prev' & _ & _ & Hr).
    exists e1. eexists. exists x0, x1, x2.
    split; [exact H1|]. split; [exact Hp1|]. split; [exact Hr|]. reflexivity.
Qed.

(** C5. Exponential strategy, one update step: with expA = 0 the new
    second reference is the new grayscale frame, pixel for pixel; with
    expA = 1 it is the previous second reference, pixel for pixel. This
    holds of every blending kernel that is exact at the weights (0, 1) and
    (1, 0), the library's and the exact-arithmetic one alike. *)
Theorem exponential_extremes (p : Params) (e e' : Engine) (f : cv2.Image)
        (r : cv2.Plane) :
  exact_at_unit_weights W ->
  strategy p = "exponential"%string ->
  static_img e <> None ->
  ref1 e = Some r ->
  process_frame G W p e f = Return e' ->
  List.length r = List.length (G f) ->
  Forall cv2.is_u8 r ->
  Forall cv2.is_u8 (G f) ->
  ((expA p == 0)%Q -> ref1 e' = Some (G f)) /\
  ((expA p == 1)%Q -> ref1 e' = Some r).
Proof.
  intros HW S Hs Hr Hp L Ur Ug. unfold process_frame in Hp.
  destruct (static_img e) as [s|]; [|contradiction].
  unfold ref1 in Hr. destruct (prev_frames e) as [[r0 r1] r2].
  simpl in Hr. subst r1. unfold update_prev_frames in Hp. rewrite S in Hp.
  destruct r0 as [a0|]; [|discriminate].
  destruct r2 as [a2|]; [|discriminate].
  simpl in Hp. injection Hp as <-. unfold ref1. simpl. split; intro A.
  - f_equal. apply addWeighted_full_replacement; try assumption.
    rewrite A. reflexivity.
  - f_equal. apply addWeighted_no_change; try assumption.
    rewrite A. reflexivity.
Qed.

End EngineProperties.

(** ** The window sampler *)

Section SamplerProperties.

Variable resize : cv2.Image -> Q -> cv2.Image.

Lemma read_loop_eq (p : Params) (total_frames : Z) (cap : list cv2.Image) (s : Sampler) :
  read_loop resize p total_frames cap s =
  if (Z.of_nat (List.length (collected s)) <? base_frame_window p)
     && (idx s <=? total_frames - 1) then
    match cap with
    | [] =>
      Return {| collected := collected s; read_count := read_count s;
                idx := idx s; decode_attempts := S (decode_attempts s) |}
    | frame :: cap' =>
      if step_of p =? 0 then Raise ZeroDivisionError else
      let s' :=
        {| collected :=
             if read_count s mod step_of p =? 0
             then collected s ++ [scaled resize p frame]
             else collected s;
           read_count := read_count s + 1;
           idx := idx s + 1;
           decode_attempts := S (decode_attempts s) |} in
      if frame_window p + 10 <? read_count s' then Return s'
      else read_loop resize p total_frames cap' s'
    end
  else Return s.
Proof. destruct cap; reflexivity. Qed.

(** The loop returns whenever the stride is not zero, and never holds more
    frames than asked for. *)
Lemma read_loop_returns (p : Params) (total_frames : Z) :
  step_of p <> 0 ->
  forall (cap : list cv2.Image) (s : Sampler),
  exists s',
    read_loop resize p total_frames cap s = Return s' /\
    Z.of_nat (List.length (collected s')) <=
    Z.max (Z.of_nat (List.length (collected s))) (base_frame_window p).
Proof.
  intros Hstep cap. induction cap as [|frame cap IH]; intro s;
    rewrite read_loop_eq;
    destruct ((Z.of_nat (List.length (collected s)) <? base_frame_window p)
              && (idx s <=? total_frames - 1)) eqn:C;
    try (exists s; split; [reflexivity | lia]).
  - eexists. split; [reflexivity|]. simpl. lia.
  - apply andb_true_iff in C. destruct C as [C1 C2].
    apply Z.ltb_lt in C1.
    destruct (step_of p =? 0) eqn:Z0; [apply Z.eqb_eq in Z0; contradiction|].
    cbv zeta.
    match goal with
    | |- context [read_loop resize p total_frames cap ?t] => set (s1 := t)
    end.
    assert (L1 : Z.of_nat (List.length (collected s1)) <=
                 Z.max (Z.of_nat (List.length (collected s))) (base_frame_window p)).
    { subst s1. simpl. destruct (read_count s mod step_of p =? 0).
      - rewrite length_app. simpl. lia.
      - lia. }
    destruct (frame_window p + 10 <? read_count s1).
    + exists s1. split; [reflexivity | exact L1].
    + destruct (IH s1) as (s' & H' & L'). exists s'. split; [exact H' | lia].
Qed.

Ltac enter_loop C C1 C2 :=
  apply andb_true_iff in C; destruct C as [C1 C2];
  apply Z.ltb_lt in C1; apply Z.leb_le in C2.

Ltac leave_loop C :=
  apply andb_false_iff in C;
  rewrite Z.ltb_ge, Z.leb_gt in C.

(** A frame is retained at every [step]-th read, so after [r] reads at
    least [r / step] frames are held: [r <= length collected * step]. *)
Lemma retained_keeps_pace (p : Params) (frame : cv2.Image) (s : Sampler) :
  1 <= step_of p ->
  read_count s <= Z.of_nat (List.length (collected s)) * step_of p ->
  read_count s + 1 <=
  Z.of_nat (List.length (if read_count s mod step_of p =? 0
                         then collected s ++ [scaled resize p frame]
                         else collected s)) * step_of p.
Proof.
  intros Hstep Hr. destruct (read_count s mod step_of p =? 0) eqn:M.
  - rewrite length_app. simpl. nia.
  - apply Z.eqb_neq in M.
    assert (read_count s <> Z.of_nat (List.length (collected s)) * step_of p).
    { intro E. apply M. rewrite E. apply Z.mod_mul. lia. }
    lia.
Qed.

(** Decode attempts of the loop. *)
Lemma read_loop_attempts (p : Params) (total_frames : Z) :
  1 <= step_of p ->
  forall (cap : list cv2.Image) (s s' : Sampler),
    read_count s <= Z.of_nat (List.length (collected s)) * step_of p ->
    read_loop resize p total_frames cap s = Return s' ->
    Z.of_nat (decode_attempts s') <=
    Z.of_nat (decode_attempts s) +
    Z.max 0 ((base_frame_window p - 1) * step_of p + 1 - read_count s).
Proof.
  intros Hstep cap. induction cap as [|frame cap IH]; intros s s' Hr;
    rewrite read_loop_eq;
    destruct ((Z.of_nat (List.length (collected s)) <? base_frame_window p)
              && (idx s <=? total_frames - 1)) eqn:C;
    try (intro H; injection H as <-; lia).
  - enter_loop C C1 C2.
    assert (B : read_count s <= (base_frame_window p - 1) * step_of p) by nia.
    intro H. injection H as <-. cbn [decode_attempts]. lia.
  - enter_loop C C1 C2.
    assert (B : read_count s <= (base_frame_window p - 1) * step_of p) by nia.
    destruct (step_of p =? 0) eqn:Z0; [apply Z.eqb_eq in Z0; lia|].
    cbv zeta.
    pose proof (retained_keeps_pace p frame s Hstep Hr) as Hr1.
    match goal with
    | |- context [read_loop resize p total_frames cap ?t] => set (s1 := t) in *
    end.
    destruct (frame_window p + 10 <? read_count s1).
    + intro H. injection H as <-. subst s1. cbn [decode_attempts]. lia.
    + intro H. apply IH in H; [|exact Hr1]. subst s1.
      cbn [decode_attempts read_count] in H. lia.
Qed.

(** What the loop collects, when the safety cap is the one [load_config]
    sets. *)
Lemma read_loop_collects (p : Params) (total_frames : Z) :
  1 <= step_of p ->
  frame_window p = base_frame_window p * step_of p ->
  forall (cap : list cv2.Image) (s : Sampler),
    read_count s <= Z.of_nat (List.length (collected s)) * step_of p ->
    exists s',
      read_loop resize p total_frames cap s = Return s' /\
      collected s' =
      collected s ++
      map (scaled resize p)
          (firstn (Z.to_nat (base_frame_window p - Z.of_nat (List.length (collected s))))
                  (retain_multiples (step_of p) (read_count s)
                                    (firstn (Z.to_nat (total_frames - idx s)) cap))).
Proof.
  intros Hstep Hfw cap. induction cap as [|frame cap IH]; intros s Hr;
    rewrite read_loop_eq;
    destruct ((Z.of_nat (List.length (collected s)) <? base_frame_window p)
              && (idx s <=? total_frames - 1)) eqn:C.
  - eexists. split; [reflexivity|]. simpl.
    rewrite firstn_nil. simpl. rewrite firstn_nil. simpl. now rewrite app_nil_r.
  - exists s. split; [reflexivity|].
    rewrite firstn_nil. simpl. rewrite firstn_nil. simpl. now rewrite app_nil_r.
  - enter_loop C C1 C2.
    destruct (step_of p =? 0) eqn:Z0; [apply Z.eqb_eq in Z0; lia|].
    cbv zeta.
    pose proof (retained_keeps_pace p frame s Hstep Hr) as Hr1.
    replace (Z.to_nat (total_frames - idx s))
      with (S (Z.to_nat (total_frames - (idx s + 1)))) by lia.
    simpl firstn at 2. simpl retain_multiples.
    match goal with
    | |- context [read_loop resize p total_frames cap ?t] => set (s1 := t) in *
    end.
    assert (Hcap : (frame_window p + 10 <? read_count s1) = false).
    { apply Z.ltb_ge. subst s1. simpl. nia. }
    rewrite Hcap.
    destruct (IH s1 Hr1) as (s' & H' & E'). exists s'. split; [exact H'|].
    rewrite E'. subst s1. simpl.
    destruct (read_count s mod step_of p =? 0).
    + rewrite length_app. simpl List.length.
      replace (Z.to_nat (base_frame_window p - Z.of_nat (List.length (collected s))))
        with (S (Z.to_nat (base_frame_window p -
                           Z.of_nat (List.length (collected s) + 1)))) by lia.
      simpl. now rewrite <- app_assoc.
    + reflexivity.
  - exists s. split; [reflexivity|]. leave_loop C. destruct C as [C|C].
    + replace (Z.to_nat (base_frame_window p - Z.of_nat (List.length (collected s))))
        with 0%nat by lia.
      simpl. now rewrite app_nil_r.
    + replace (Z.to_nat (total_frames - idx s)) with 0%nat by lia.
      simpl. rewrite firstn_nil. simpl. now rewrite app_nil_r.
Qed.

Lemma retain_multiples_length {A : Type} (step : Z) :
  1 <= step ->
  forall (frames : list A) (r j : Z) (k : nat),
    r <= j * step ->
    (j + Z.of_nat k - 1) * step < r + Z.of_nat (List.length frames) ->
    (k <= List.length (retain_multiples step r frames))%nat.
Proof.
  intros Hstep frames. induction frames as [|f frames IH]; intros r j k Hr Hk.
  - simpl in *. assert (Z.of_nat k - 1 < 0) by nia. lia.
  - simpl. destruct (r mod step =? 0) eqn:M.
    + apply Z.eqb_eq in M.
      pose proof (Z.div_mod r step ltac:(lia)) as D. rewrite M in D.
      destruct k as [|k]; [lia|]. simpl. apply le_n_S.
      apply (IH (r + 1) (r / step + 1)).
      * nia.
      * simpl List.length in Hk. nia.
    + apply Z.eqb_neq in M.
      assert (r <> j * step) by (intro E; apply M; rewrite E; apply Z.mod_mul; lia).
      apply (IH (r + 1) j); simpl List.length in Hk; lia.
Qed.

(** Why the loop stopped. *)
Lemma read_loop_exit (p : Params) (total_frames : Z) :
  forall (cap : list cv2.Image) (s s' : Sampler),
    read_loop resize p total_frames cap s = Return s' ->
    base_frame_window p <= Z.of_nat (List.length (collected s')) \/
    total_frames - 1 < idx s' \/
    frame_window p + 10 < read_count s' \/
    Z.of_nat (decode_attempts s') - read_count s' =
    Z.of_nat (decode_attempts s) - read_count s + 1.
Proof.
  intro cap. induction cap as [|frame cap IH]; intros s s';
    rewrite read_loop_eq;
    destruct ((Z.of_nat (List.length (collected s)) <? base_frame_window p)
              && (idx s <=? total_frames - 1)) eqn:C;
    try (leave_loop C; intro H; injection H as <-; lia).
  - intro H. injection H as <-. cbn [decode_attempts read_count]. lia.
  - destruct (step_of p =? 0); [discriminate|]. cbv zeta.
    match goal with
    | |- context [read_loop resize p total_frames cap ?t] => set (s1 := t) in *
    end.
    destruct (frame_window p + 10 <? read_count s1) eqn:K.
    + apply Z.ltb_lt in K. intro H. injection H as <-. lia.
    + intro H. apply IH in H. subst s1.
      cbn [decode_attempts read_count] in H. lia.
Qed.

Lemma read_window_collects (cap : VideoCapture) (frame_num : Z) (p : Params) :
  1 <= step_of p ->
  frame_window p = base_frame_window p * step_of p ->
  exists s,
    read_window resize cap frame_num p = Return s /\
    collected s = sample resize cap frame_num p.
Proof.
  intros Hstep Hfw. unfold read_window.
  destruct (read_loop_collects p (CAP_PROP_FRAME_COUNT cap) Hstep Hfw
              (seek cap (start_frame p frame_num))
              (init_sampler (start_frame p frame_num))) as (s & H & E).
  { simpl. lia. }
  exists s. split; [exact H|]. rewrite E. simpl.
  rewrite Z.sub_0_r. reflexivity.
Qed.

(** A window that fits in the video is collected in full. *)
Lemma sample_full (cap : VideoCapture) (frame_num : Z) (p : Params) :
  1 <= step_of p ->
  1 <= base_frame_window p ->
  0 <= frame_num < CAP_PROP_FRAME_COUNT cap ->
  base_frame_window p * step_of p <= CAP_PROP_FRAME_COUNT cap ->
  CAP_PROP_FRAME_COUNT cap <= Z.of_nat (List.length (decodable cap)) ->
  List.length (sample resize cap frame_num p) = Z.to_nat (base_frame_window p).
Proof.
  intros Hstep Hn Hf Hfit Hdec. unfold sample.
  rewrite length_map, length_firstn. apply Nat.min_l.
  fold (step_of p). fold (start_frame p frame_num).
  apply (retain_multiples_length (step_of p) Hstep _ 0 0); [lia|].
  unfold source_from, seek. rewrite length_firstn, length_skipn.
  assert (Hs : start_frame p frame_num =
               Z.max 0 (frame_num - (base_frame_window p - 1) * step_of p))
    by reflexivity.
  assert (Hm : 0 <= (base_frame_window p - 1) * step_of p) by nia.
  assert (Hb : (base_frame_window p - 1) * step_of p =
               base_frame_window p * step_of p - step_of p) by ring.
  lia.
Qed.

(** C2. The window starts at max(0, frame_num - (sampleCount-1)*strideStep),
    and the frames the loop collects are those of the design document's
    sampler: from the start index on, the frames whose offset from the read
    start is a multiple of strideStep, up to sampleCount of them or the end
    of the source. *)
Theorem window_sampler_refines (cap : VideoCapture) (frame_num : Z) (p : Params) :
  1 <= step_of p ->
  frame_window p = base_frame_window p * step_of p ->
  start_frame p frame_num =
  Z.max 0 (frame_num - (base_frame_window p - 1) * (frame_skip p + 1)) /\
  exists s,
    read_window resize cap frame_num p = Return s /\
    collected s = sample resize cap frame_num p.
Proof.
  intros Hstep Hfw. split; [reflexivity|].
  now apply read_window_collects.
Qed.

(** C9. The reading loop makes at most sampleCount*strideStep + 10 decode
    attempts, and when it stops either sampleCount frames are collected, or
    the source is exhausted (the reported frame count is passed or a read
    failed), or the safety cap on the read count is exceeded. *)
Theorem decode_attempts_bounded (cap : VideoCapture) (frame_num : Z) (p : Params) :
  1 <= step_of p ->
  1 <= base_frame_window p ->
  exists s,
    read_window resize cap frame_num p = Return s /\
    Z.of_nat (decode_attempts s) <= base_frame_window p * step_of p + 10 /\
    (base_frame_window p <= Z.of_nat (List.length (collected s)) \/
     CAP_PROP_FRAME_COUNT cap - 1 < idx s \/
     Z.of_nat (decode_attempts s) = read_count s + 1 \/
     frame_window p + 10 < read_count s).
Proof.
  intros Hstep Hn. unfold read_window.
  destruct (read_loop_returns p (CAP_PROP_FRAME_COUNT cap) ltac:(lia)
              (seek cap (start_frame p frame_num))
              (init_sampler (start_frame p frame_num))) as (s & H & _).
  exists s. split; [exact H|]. split.
  - apply read_loop_attempts in H; [|exact Hstep | simpl; lia].
    simpl in H. nia.
  - apply read_loop_exit in H. simpl in H. lia.
Qed.

End SamplerProperties.

(** ** The motion compositor *)

Lemma index_inv (l : list Q) (i : nat) (x : Q) :
  index l i = Return x -> nth_error l i = Some x.
Proof.
  unfold index. destruct (nth_error l i); [|discriminate].
  intro H. now injection H as <-.
Qed.

Lemma index_returns (l : list Q) (i : nat) :
  (i < List.length l)%nat -> exists x, index l i = Return x.
Proof.
  intro H. unfold index. destruct (nth_error l i) eqn:E.
  - now eexists.
  - apply nth_error_None in E. lia.
Qed.

Lemma map2_nth {A B C : Type} (f : A -> B -> C) :
  forall (la : list A) (lb : list B) (i : nat),
    nth_error (cv2.map2 f la lb) i =
    match nth_error la i, nth_error lb i with
    | Some a, Some b => Some (f a b)
    | _, _ => None
    end.
Proof.
  induction la as [|x la IH]; intros [|y lb] [|i]; simpl; try reflexivity.
  - now destruct (nth_error la i).
  - apply IH.
Qed.

Lemma merge_nth :
  forall (b g r : cv2.Plane) (i : nat),
    nth_error (cv2.merge b g r) i =
    match nth_error b i, nth_error g i, nth_error r i with
    | Some x, Some y, Some z => Some (x, y, z)
    | _, _, _ => None
    end.
Proof.
  induction b as [|x0 b IH]; intros g r i.
  - now destruct i.
  - destruct g as [|y0 g].
    + destruct i as [|i]; simpl; [reflexivity|]. now destruct (nth_error b i).
    + destruct r as [|z0 r].
      * destruct i as [|i]; simpl; [reflexivity|].
        destruct (nth_error b i); [|reflexivity]. now destruct (nth_error g i).
      * destruct i as [|i]; simpl; [reflexivity | apply IH].
Qed.

Lemma map2_length {A B C : Type} (f : A -> B -> C) :
  forall (la : list A) (lb : list B),
    List.length la = List.length lb ->
    List.length (cv2.map2 f la lb) = List.length la.
Proof.
  induction la as [|x la IH]; intros [|y lb] L; simpl in *; try reflexivity;
    try discriminate.
  f_equal. apply IH. lia.
Qed.

Lemma merge_length :
  forall (b g r : cv2.Plane),
    List.length b = List.length g -> List.length b = List.length r ->
    List.length (cv2.merge b g r) = List.length b.
Proof.
  induction b as [|x b IH]; intros [|y g] [|z r] Lg Lr; simpl in *;
    try reflexivity; try discriminate.
  f_equal. apply IH; lia.
Qed.

Section CompositorProperties.

Variable W : Q -> Q -> Q -> Z -> Z -> Z.

(** The three channel planes the compositor merges, in either mode. *)
Lemma motion_image_inv (p : Params) (d0 d1 d2 g : cv2.Plane) (m : cv2.Image) :
  motion_image W p (d0, d1, d2) g = Return m ->
  exists m0 m1 m2 s0 s1 s2,
    nth_error (rgb_multipliers p) 0 = Some m0 /\
    nth_error (rgb_multipliers p) 1 = Some m1 /\
    nth_error (rgb_multipliers p) 2 = Some m2 /\
    (s0, s1, s2) =
    (if String.eqb (chromatic_tail_only p) "true"
     then (cv2.subtract d0 d1, cv2.subtract d1 d0, cv2.subtract d2 d1)
     else (d0, d1, d2)) /\
    m = cv2.merge
          (cv2.addWeighted W g (lum_weight p) s0 m2 (inject_Z (motion_threshold p)))
          (cv2.addWeighted W g (lum_weight p) s1 m1 (inject_Z (motion_threshold p)))
          (cv2.addWeighted W g (lum_weight p) s2 m0 (inject_Z (motion_threshold p))).
Proof.
  unfold motion_image.
  destruct (index (rgb_multipliers p) 2) as [m2|] eqn:E2;
    [|destruct (String.eqb (chromatic_tail_only p) "true"); discriminate].
  destruct (index (rgb_multipliers p) 1) as [m1|] eqn:E1;
    [|destruct (String.eqb (chromatic_tail_only p) "true"); discriminate].
  destruct (index (rgb_multipliers p) 0) as [m0|] eqn:E0;
    [|destruct (String.eqb (chromatic_tail_only p) "true"); discriminate].
  apply index_inv in E0, E1, E2.
  destruct (String.eqb (chromatic_tail_only p) "true"); simpl;
    intro H; injection H as <-;
    exists m0, m1, m2; do 3 eexists; repeat split; assumption.
Qed.

Lemma motion_image_returns (p : Params) (ds : cv2.Plane * cv2.Plane * cv2.Plane)
      (g : cv2.Plane) :
  (3 <= List.length (rgb_multipliers p))%nat ->
  exists m, motion_image W p ds g = Return m.
Proof.
  intro L. destruct ds as [[d0 d1] d2]. unfold motion_image.
  destruct (index_returns (rgb_multipliers p) 0 ltac:(lia)) as (m0 & ->).
  destruct (index_returns (rgb_multipliers p) 1 ltac:(lia)) as (m1 & ->).
  destruct (index_returns (rgb_multipliers p) 2 ltac:(lia)) as (m2 & ->).
  destruct (String.eqb (chromatic_tail_only p) "true"); simpl; now eexists.
Qed.

(** One pixel position of the composed image: a pixel is there exactly when
    the luminance and the three signals have one, and it is the kernel's
    value on them. *)
Lemma composed_nth (lw bias m0 m1 m2 : Q) (g s0 s1 s2 : cv2.Plane) (i : nat) :
  nth_error (cv2.merge (cv2.addWeighted W g lw s0 m2 bias)
                       (cv2.addWeighted W g lw s1 m1 bias)
                       (cv2.addWeighted W g lw s2 m0 bias)) i =
  match nth_error g i, nth_error s0 i, nth_error s1 i, nth_error s2 i with
  | Some l, Some x0, Some x1, Some x2 =>
    Some (W lw m2 bias l x0, W lw m1 bias l x1, W lw m0 bias l x2)
  | _, _, _, _ => None
  end.
Proof.
  rewrite merge_nth. unfold cv2.addWeighted. rewrite !map2_nth.
  destruct (nth_error g i); [|reflexivity].
  destruct (nth_error s0 i); [|reflexivity].
  destruct (nth_error s1 i); [|reflexivity].
  destruct (nth_error s2 i); reflexivity.
Qed.

Lemma composed_length (lw bias m0 m1 m2 : Q) (g s0 s1 s2 : cv2.Plane) (n : nat) :
  List.length g = n -> List.length s0 = n -> List.length s1 = n ->
  List.length s2 = n ->
  List.length (cv2.merge (cv2.addWeighted W g lw s0 m2 bias)
                         (cv2.addWeighted W g lw s1 m1 bias)
                         (cv2.addWeighted W g lw s2 m0 bias)) = n.
Proof.
  intros Lg L0 L1 L2. unfold cv2.addWeighted.
  rewrite merge_length; rewrite !map2_length; congruence.
Qed.

End CompositorProperties.

(** ** generate_base_images as a whole *)

Section GenerateProperties.

Variable resize : cv2.Image -> Q -> cv2.Image.
Variable G : cv2.Image -> cv2.Plane.
Variable W : Q -> Q -> Q -> Z -> Z -> Z.

Lemma generate_base_images_guards (cap : VideoCapture) (frame_num : Z) (p : Params) :
  generate_base_images resize G W cap frame_num p =
  if negb (isOpened cap) then Return absent
  else if CAP_PROP_FRAME_COUNT cap <=? 0 then Return absent
  else if CAP_PROP_FRAME_COUNT cap - 1 <? start_frame p frame_num then Return absent
  else after_guards resize G W cap frame_num p.
Proof. reflexivity. Qed.

Lemma after_guards_few (cap : VideoCapture) (frame_num : Z) (p : Params) (s : Sampler) :
  read_window resize cap frame_num p = Return s ->
  (List.length (collected s) < 2)%nat ->
  after_guards resize G W cap frame_num p = Return absent.
Proof.
  intros H L. unfold after_guards. rewrite H. simpl.
  destruct (collected s) as [|f [|f' fs]]; [reflexivity | reflexivity | simpl in L; lia].
Qed.

Lemma generate_base_images_few (cap : VideoCapture) (frame_num : Z) (p : Params)
      (s : Sampler) :
  read_window resize cap frame_num p = Return s ->
  (List.length (collected s) < 2)%nat ->
  generate_base_images resize G W cap frame_num p = Return absent.
Proof.
  intros H L. rewrite generate_base_images_guards.
  rewrite (after_guards_few cap frame_num p s H L).
  destruct (negb (isOpened cap)); [reflexivity|].
  destruct (CAP_PROP_FRAME_COUNT cap <=? 0); [reflexivity|].
  destruct (CAP_PROP_FRAME_COUNT cap - 1 <? start_frame p frame_num); reflexivity.
Qed.

Lemma generate_base_images_inv (cap : VideoCapture) (frame_num : Z) (p : Params)
      (static : cv2.Image) (motion : cv2.Image) :
  generate_base_images resize G W cap frame_num p = Return (Some static, Some motion) ->
  exists s e ds g,
    read_window resize cap frame_num p = Return s /\
    process_frames G W p init_engine (collected s) = Return e /\
    diffs e = Some ds /\ gray e = Some g /\ static_img e = Some static /\
    motion_image W p ds g = Return motion.
Proof.
  rewrite generate_base_images_guards.
  destruct (negb (isOpened cap)); [discriminate|].
  destruct (CAP_PROP_FRAME_COUNT cap <=? 0); [discriminate|].
  destruct (CAP_PROP_FRAME_COUNT cap - 1 <? start_frame p frame_num); [discriminate|].
  unfold after_guards.
  destruct (read_window resize cap frame_num p) as [s|x]; [|discriminate].
  cbn [bind]. destruct (collected s) as [|f fs] eqn:Ec; [discriminate|].
  destruct (process_frames G W p init_engine (f :: fs)) as [e|x] eqn:Ep; [|discriminate].
  cbn [bind]. destruct (diffs e) as [ds|] eqn:Ed; [|discriminate].
  destruct (gray e) as [g|] eqn:Eg; [|discriminate].
  destruct (motion_image W p ds g) as [m|x] eqn:Em; [|discriminate].
  cbn [bind]. intro H. injection H as Hs <-.
  exists s, e, ds, g. rewrite Ec. repeat split; assumption.
Qed.

Lemma process_frames_keeps_diffs (p : Params) (fs : list cv2.Image) :
  forall e : Engine,
    ready e -> diffs e <> None -> gray e <> None ->
    exists e', process_frames G W p e fs = Return e' /\
               static_img e' <> None /\ diffs e' <> None /\ gray e' <> None.
Proof.
  induction fs as [|f fs IH]; intros e R D Y; simpl.
  - exists e. destruct R as [R _]. now repeat split.
  - destruct (process_frame_keeps_ready G W p e f R) as (e1 & H1 & R1 & D1 & Y1 & _).
    rewrite H1. simpl. apply IH; [assumption | assumption | congruence].
Qed.

(** Two frames or more always yield differences. *)
Lemma process_two_or_more (p : Params) (f0 f1 : cv2.Image) (fs : list cv2.Image) :
  exists e st ds g,
    process_frames G W p init_engine (f0 :: f1 :: fs) = Return e /\
    static_img e = Some st /\ diffs e = Some ds /\ gray e = Some g.
Proof.
  destruct (process_frame_keeps_ready G W p _ f1 (ready_after_first G f0))
    as (e1 & H1 & R1 & D1 & Y1 & _).
  assert (E : process_frames G W p init_engine (f0 :: f1 :: fs) =
              process_frames G W p e1 fs).
  { change (process_frames G W p init_engine (f0 :: f1 :: fs))
      with (e' <- process_frame G W p
                    {| prev_frames := (Some (G f0), Some (G f0), Some (G f0));
                       static_img := Some f0; diffs := None;
                       gray := Some (G f0) |} f1 ;;
            process_frames G W p e' fs).
    rewrite H1. reflexivity. }
  rewrite E.
  destruct (process_frames_keeps_diffs p fs e1 R1 D1 ltac:(congruence))
    as (e2 & H2 & S2 & D2 & Y2).
  exists e2.
  destruct (static_img e2) as [st|]; [|contradiction].
  destruct (diffs e2) as [ds|]; [|contradiction].
  destruct (gray e2) as [g|]; [|contradiction].
  exists st, ds, g. now repeat split.
Qed.

(** C1. When the video opens, the window asks for at least two frames at a
    positive stride, the target is a frame of the video and the video holds
    at least sampleCount*strideStep frames, [generate_base_images] returns a
    static image and a motion image, neither absent. *)
Theorem full_window_present (cap : VideoCapture) (frame_num : Z) (p : Params) :
  isOpened cap = true ->
  2 <= base_frame_window p ->
  1 <= step_of p ->
  frame_window p = base_frame_window p * step_of p ->
  (3 <= List.length (rgb_multipliers p))%nat ->
  0 <= frame_num < CAP_PROP_FRAME_COUNT cap ->
  base_frame_window p * step_of p <= CAP_PROP_FRAME_COUNT cap ->
  CAP_PROP_FRAME_COUNT cap <= Z.of_nat (List.length (decodable cap)) ->
  exists static_img motion_img,
    generate_base_images resize G W cap frame_num p =
    Return (Some static_img, Some motion_img).
Proof.
  intros Ho Hn Hstep Hfw Hrgb Hf Hfit Hdec.
  rewrite generate_base_images_guards. rewrite Ho. cbn [negb].
  assert (Hm : 0 <= (base_frame_window p - 1) * step_of p) by nia.
  assert (Hs : start_frame p frame_num =
               Z.max 0 (frame_num - (base_frame_window p - 1) * step_of p))
    by reflexivity.
  replace (CAP_PROP_FRAME_COUNT cap <=? 0) with false by (symmetry; apply Z.leb_gt; lia).
  replace (CAP_PROP_FRAME_COUNT cap - 1 <? start_frame p frame_num) with false
    by (symmetry; apply Z.ltb_ge; lia).
  unfold after_guards.
  destruct (read_window_collects resize cap frame_num p Hstep Hfw) as (s & H & E).
  rewrite H. cbn [bind].
  pose proof (sample_full resize cap frame_num p Hstep ltac:(lia) Hf Hfit Hdec) as L.
  rewrite <- E in L.
  destruct (collected s) as [|f0 [|f1 fs]]; [simpl in L; lia | simpl in L; lia |].
  destruct (process_two_or_more p f0 f1 fs) as (e & st & ds & g & He & Hst & Hd & Hg).
  rewrite He. cbn [bind]. rewrite Hd, Hg.
  destruct (motion_image_returns W p ds g Hrgb) as (m & Hm').
  rewrite Hm'. cbn [bind]. rewrite Hst. now exists st, m.
Qed.

(** C7. The first frame of a window sets the three references to its
    grayscale image and computes no difference; so when exactly one frame is
    collected, and in particular whenever sampleCount is 1, the result is
    absent. *)
Theorem single_frame_insufficient (cap : VideoCapture) (frame_num : Z) (p : Params) :
  (forall f : cv2.Image,
      process_frames G W p init_engine [f] =
      Return {| prev_frames := (Some (G f), Some (G f), Some (G f));
                static_img := Some f; diffs := None; gray := Some (G f) |}) /\
  (forall s : Sampler,
      read_window resize cap frame_num p = Return s ->
      List.length (collected s) = 1%nat ->
      generate_base_images resize G W cap frame_num p = Return absent) /\
  (base_frame_window p = 1 ->
   step_of p <> 0 ->
   generate_base_images resize G W cap frame_num p = Return absent).
Proof.
  split; [|split].
  - intro f. reflexivity.
  - intros s H L. apply (generate_base_images_few cap frame_num p s H). lia.
  - intros Hn Hstep.
    destruct (read_loop_returns resize p (CAP_PROP_FRAME_COUNT cap) Hstep
                (seek cap (start_frame p frame_num))
                (init_sampler (start_frame p frame_num))) as (s & H & L).
    apply (generate_base_images_few cap frame_num p s H).
    simpl in L. lia.
Qed.

(** C8. If the video does not open, or reports no frames, or the clamped
    start index lies beyond its last frame, or the sampler collects no frame
    or only one (stated on the loop, and again on the source for a positive
    stride), [generate_base_images] returns the absence value (None, None);
    it raises nothing. *)
Theorem expected_conditions_absent (cap : VideoCapture) (frame_num : Z) (p : Params) :
  isOpened cap = false \/
  CAP_PROP_FRAME_COUNT cap <= 0 \/
  start_frame p frame_num > CAP_PROP_FRAME_COUNT cap - 1 \/
  (exists s, read_window resize cap frame_num p = Return s /\
             (List.length (collected s) < 2)%nat) \/
  (1 <= step_of p /\
   frame_window p = base_frame_window p * step_of p /\
   (List.length (sample resize cap frame_num p) < 2)%nat) ->
  generate_base_images resize G W cap frame_num p = Return (None, None).
Proof.
  intros [H|[H|[H|[(s & H & L)|(Hstep & Hfw & L)]]]];
    [| | | |destruct (read_window_collects resize cap frame_num p Hstep Hfw)
              as (s & H & E); rewrite <- E in L].
  - rewrite generate_base_images_guards, H. reflexivity.
  - rewrite generate_base_images_guards.
    destruct (negb (isOpened cap)); [reflexivity|].
    apply Z.leb_le in H. now rewrite H.
  - rewrite generate_base_images_guards.
    destruct (negb (isOpened cap)); [reflexivity|].
    destruct (CAP_PROP_FRAME_COUNT cap <=? 0); [reflexivity|].
    replace (CAP_PROP_FRAME_COUNT cap - 1 <? start_frame p frame_num) with true
      by (symmetry; apply Z.ltb_lt; lia).
    reflexivity.
  - now apply (generate_base_images_few cap frame_num p s).
  - now apply (generate_base_images_few cap frame_num p s).
Qed.

End GenerateProperties.

(** ** The properties at work on the example video *)

Example sequential_params_loaded :
  load_config (example_config "sequential" "FALSE" (5 # 10) (8 # 10)) =
  Return sequential_params.
Proof. reflexivity. Qed.

Example example_window :
  generate_base_images no_resize example_gray cv2.blend example_video 5 sequential_params =
  Return (Some (solid 90), Some (repeat (255, 218, 138) 16)).
Proof. vm_compute. reflexivity. Qed.

Lemma load_config_window_invariant_witness :
  frame_window sequential_params =
  base_frame_window sequential_params * (frame_skip sequential_params + 1) /\
  In (base_frame_window sequential_params) [4; 5; 10; 15; 20; 45] /\
  4 <= base_frame_window sequential_params.
Proof.
  destruct (load_config_window_invariant
              (example_config "sequential" "false" (5 # 10) (8 # 10))
              sequential_params eq_refl) as (A & B & C & _).
  exact (conj A (conj B C)).
Defined.

Lemma sequential_shift_register_witness :
  exists e,
    process_frames example_gray cv2.blend sequential_params init_engine
                   (solid 10 :: [] ++ [solid 10; solid 20; solid 90]) = Return e /\
    prev_frames e = (Some (example_gray (solid 90)), Some (example_gray (solid 20)),
                     Some (example_gray (solid 10))).
Proof.
  exact (proj1 (sequential_shift_register example_gray cv2.blend sequential_params eq_refl)
               (solid 10) [] (solid 10) (solid 20) (solid 90)).
Defined.

Lemma exponential_extremes_witness :
  (exists e',
      process_frame example_gray cv2.blend
                    (example_params "exponential" "false" 0 (8 # 10) 15)
                    (first_engine (solid 10)) (solid 90) = Return e' /\
      ref1 e' = Some (example_gray (solid 90))) /\
  (exists e',
      process_frame example_gray cv2.blend
                    (example_params "exponential" "false" 1 (8 # 10) 45)
                    (first_engine (solid 10)) (solid 90) = Return e' /\
      ref1 e' = Some (example_gray (solid 10))).
Proof.
  assert (U10 : Forall cv2.is_u8 (example_gray (solid 10)))
    by (vm_compute; repeat constructor; discriminate).
  assert (U90 : Forall cv2.is_u8 (example_gray (solid 90)))
    by (vm_compute; repeat constructor; discriminate).
  split; eexists; (split; [reflexivity|]).
  - apply (proj1 (exponential_extremes example_gray cv2.blend
                    (example_params "exponential" "false" 0 (8 # 10) 15)
                    (first_engine (solid 10)) _ (solid 90)
                    (example_gray (solid 10)) blend_exact_at_unit_weights eq_refl
                    ltac:(discriminate) eq_refl eq_refl eq_refl
                    U10 U90)).
    reflexivity.
  - apply (proj2 (exponential_extremes example_gray cv2.blend
                    (example_params "exponential" "false" 1 (8 # 10) 45)
                    (first_engine (solid 10)) _ (solid 90)
                    (example_gray (solid 10)) blend_exact_at_unit_weights eq_refl
                    ltac:(discriminate) eq_refl eq_refl eq_refl
                    U10 U90)).
    reflexivity.
Defined.

Lemma window_sampler_refines_witness :
  start_frame sequential_params 5 = 2 /\
  exists s,
    read_window no_resize example_video 5 sequential_params = Return s /\
    collected s = sample no_resize example_video 5 sequential_params.
Proof.
  exact (window_sampler_refines no_resize example_video 5 sequential_params
                                ltac:(vm_compute; discriminate) eq_refl).
Defined.

Lemma decode_attempts_bounded_witness :
  exists s,
    read_window no_resize example_video 5 sequential_params = Return s /\
    Z.of_nat (decode_attempts s) <= 4 * 1 + 10 /\
    (4 <= Z.of_nat (List.length (collected s)) \/
     10 - 1 < idx s \/
     Z.of_nat (decode_attempts s) = read_count s + 1 \/
     4 + 10 < read_count s).
Proof.
  exact (decode_attempts_bounded no_resize example_video 5 sequential_params
                                 ltac:(vm_compute; discriminate)
                                 ltac:(vm_compute; discriminate)).
Defined.

Lemma full_window_present_witness :
  exists static_img motion_img,
    generate_base_images no_resize example_gray cv2.blend example_video 5 sequential_params =
    Return (Some static_img, Some motion_img).
Proof.
  apply full_window_present.
  - reflexivity.
  - vm_compute; discriminate.
  - vm_compute; discriminate.
  - reflexivity.
  - vm_compute. apply le_n.
  - split; vm_compute; [discriminate | reflexivity].
  - vm_compute; discriminate.
  - vm_compute; discriminate.
Defined.

Lemma single_frame_insufficient_witness :
  generate_base_images no_resize example_gray cv2.blend example_video 5 single_params =
  Return absent.
Proof.
  apply (proj2 (proj2 (single_frame_insufficient no_resize example_gray cv2.blend
                                                  example_video 5 single_params))).
  - reflexivity.
  - vm_compute; discriminate.
Defined.

Lemma expected_conditions_absent_witness :
  generate_base_images no_resize example_gray cv2.blend example_video 12 sequential_params =
  Return (None, None).
Proof.
  apply expected_conditions_absent.
  right. right. right. left. eexists. split.
  - vm_compute. reflexivity.
  - vm_compute. apply le_n.
Defined.


(** * Further properties of the code *)

(** ** What the engine holds after the last frame *)

Section EngineEnd.

Variable G : cv2.Image -> cv2.Plane.
Variable W : Q -> Q -> Q -> Z -> Z -> Z.

Lemma process_frame_last (p : Params) (e e' : Engine) (f : cv2.Image) :
  process_frame G W p e f = Return e' ->
  static_img e' = Some f /\ gray e' = Some (G f).
Proof.
  unfold process_frame. destruct (static_img e).
  - destruct (prev_frames e) as [[r0 r1] r2].
    destruct (array r0); [|discriminate].
    destruct (array r1); [|discriminate].
    destruct (array r2); [|discriminate].
    cbn [bind].
    destruct (update_prev_frames W p (r0, r1, r2) (G f)); [|discriminate].
    cbn [bind]. intro H. injection H as <-. now split.
  - intro H. injection H as <-. now split.
Qed.

Lemma process_frames_last (p : Params) (fs : list cv2.Image) (f : cv2.Image)
      (e e' : Engine) :
  process_frames G W p e (fs ++ [f]) = Return e' ->
  static_img e' = Some f /\ gray e' = Some (G f).
Proof.
  rewrite process_frames_app.
  destruct (process_frames G W p e fs) as [e1|x]; [|discriminate].
  cbn [bind process_frames].
  destruct (process_frame G W p e1 f) as [e2|x] eqn:H; [|discriminate].
  cbn [bind]. intro E. injection E as <-. now apply (process_frame_last p e1).
Qed.

(** After a step of a known strategy the first reference is the frame just
    processed. *)
Lemma known_strategy_ref0 (p : Params) (e e' : Engine) (f : cv2.Image) :
  strategy p = "exponential"%string \/ strategy p = "sequential"%string ->
  process_frame G W p e f = Return e' ->
  ref0 e' = Some (G f).
Proof.
  intros S. unfold process_frame, ref0. destruct (static_img e).
  - destruct (prev_frames e) as [[r0 r1] r2].
    destruct (array r0); [|discriminate].
    destruct (array r1) as [a1|]; [|discriminate].
    destruct (array r2) as [a2|]; [|discriminate].
    cbn [bind]. unfold update_prev_frames.
    destruct S as [S|S]; rewrite S; simpl.
    + destruct r1; [|discriminate]. destruct r2; [|discriminate].
      simpl. intro H. now injection H as <-.
    + intro H. now injection H as <-.
  - intro H. now injection H as <-.
Qed.

Lemma process_frames_snoc (p : Params) (fs : list cv2.Image) (f : cv2.Image)
      (e : Engine) :
  process_frames G W p e (fs ++ [f]) =
  (e1 <- process_frames G W p e fs ;; process_frame G W p e1 f).
Proof.
  rewrite process_frames_app.
  destruct (process_frames G W p e fs) as [e1|x]; [|reflexivity].
  cbn [bind process_frames].
  destruct (process_frame G W p e1 f); reflexivity.
Qed.

Lemma process_nonempty_ready (p : Params) (f0 : cv2.Image) (fs : list cv2.Image) :
  exists e, process_frames G W p init_engine (f0 :: fs) = Return e /\ ready e.
Proof.
  destruct (process_frames_keeps_ready G W p fs _ (ready_after_first G f0)) as (e & H & R).
  exists e. split; [exact H | exact R].
Qed.

(** X1. Under either known strategy, the first difference of the final
    triple is the plain frame difference between the last two frames of the
    window, whatever came before. *)
Theorem latest_diff_is_frame_difference (p : Params) (fs : list cv2.Image)
        (a b : cv2.Image) :
  strategy p = "exponential"%string \/ strategy p = "sequential"%string ->
  exists e d1 d2,
    process_frames G W p init_engine (fs ++ [a; b]) = Return e /\
    diffs e = Some (cv2.absdiff (G a) (G b), d1, d2).
Proof.
  intro S.
  assert (H1 : exists e1, process_frames G W p init_engine (fs ++ [a]) = Return e1 /\
                          ready e1).
  { destruct fs as [|f0 fs]; simpl app; apply process_nonempty_ready. }
  destruct H1 as (e1 & H1 & Hs1 & (a0 & a1 & a2 & Hp1)).
  assert (R0 : ref0 e1 = Some (G a)).
  { rewrite process_frames_snoc in H1.
    destruct (process_frames G W p init_engine fs) as [e0|x]; [|discriminate].
    cbn [bind] in H1. exact (known_strategy_ref0 p e0 e1 a S H1). }
  unfold ref0 in R0. rewrite Hp1 in R0. simpl in R0. injection R0 as ->.
  destruct (process_frame_ready G W p e1 b (G a) a1 a2 Hs1 Hp1) as (prev' & _ & _ & Hr).
  replace (fs ++ [a; b]) with ((fs ++ [a]) ++ [b]) by now rewrite <- app_assoc.
  rewrite process_frames_snoc, H1. cbn [bind]. rewrite Hr.
  eexists. exists (cv2.absdiff a1 (G b)), (cv2.absdiff a2 (G b)).
  split; reflexivity.
Qed.

Lemma unknown_strategy_step (p : Params) (e : Engine) (f : cv2.Image) (g : cv2.Plane) :
  strategy p <> "exponential"%string ->
  strategy p <> "sequential"%string ->
  static_img e <> None ->
  prev_frames e = (Some g, Some g, Some g) ->
  exists e',
    process_frame G W p e f = Return e' /\
    static_img e' <> None /\
    prev_frames e' = (Some g, Some g, Some g) /\
    diffs e' = Some (cv2.absdiff g (G f), cv2.absdiff g (G f), cv2.absdiff g (G f)).
Proof.
  intros N1 N2 Hs Hp.
  destruct (process_frame_ready G W p e f g g g Hs Hp) as (prev' & Hu & _ & Hr).
  rewrite Hp in Hu. unfold update_prev_frames in Hu.
  apply String.eqb_neq in N1, N2. rewrite N1, N2 in Hu. injection Hu as <-.
  eexists. split; [exact Hr|]. simpl. repeat split. discriminate.
Qed.

Lemma unknown_strategy_frozen (p : Params) (g : cv2.Plane) (fs : list cv2.Image) :
  strategy p <> "exponential"%string ->
  strategy p <> "sequential"%string ->
  forall e : Engine,
    static_img e <> None ->
    prev_frames e = (Some g, Some g, Some g) ->
    exists e',
      process_frames G W p e fs = Return e' /\
      static_img e' <> None /\
      prev_frames e' = (Some g, Some g, Some g).
Proof.
  intros N1 N2. induction fs as [|f fs IH]; intros e Hs Hp.
  - now exists e.
  - destruct (unknown_strategy_step p e f g N1 N2 Hs Hp) as (e1 & H1 & Hs1 & Hp1 & _).
    cbn [process_frames]. rewrite H1. cbn [bind]. now apply IH.
Qed.

(** X2. A strategy name other than the two literals (for instance a
    capitalised one, which [load_config] does not normalise) never updates
    the references: they stay the grayscale of the first frame, and the three
    final differences are all the difference between the first and the last
    frame of the window. *)
Theorem unknown_strategy_freezes_references (p : Params) (f0 : cv2.Image)
        (mid : list cv2.Image) (b : cv2.Image) :
  strategy p <> "exponential"%string ->
  strategy p <> "sequential"%string ->
  exists e,
    process_frames G W p init_engine (f0 :: mid ++ [b]) = Return e /\
    prev_frames e = (Some (G f0), Some (G f0), Some (G f0)) /\
    diffs e = Some (cv2.absdiff (G f0) (G b), cv2.absdiff (G f0) (G b),
                    cv2.absdiff (G f0) (G b)).
Proof.
  intros N1 N2.
  destruct (unknown_strategy_frozen p (G f0) mid N1 N2
              {| prev_frames := (Some (G f0), Some (G f0), Some (G f0));
                 static_img := Some f0; diffs := None; gray := Some (G f0) |}
              ltac:(discriminate) eq_refl) as (e1 & H1 & Hs1 & Hp1).
  destruct (unknown_strategy_step p e1 b (G f0) N1 N2 Hs1 Hp1)
    as (e2 & H2 & _ & Hp2 & Hd2).
  exists e2. split; [|split; assumption].
  change (f0 :: mid ++ [b]) with ((f0 :: mid) ++ [b]).
  rewrite process_frames_snoc.
  change (process_frames G W p init_engine (f0 :: mid))
    with (process_frames G W p
            {| prev_frames := (Some (G f0), Some (G f0), Some (G f0));
               static_img := Some f0; diffs := None; gray := Some (G f0) |} mid).
  rewrite H1. exact H2.
Qed.

End EngineEnd.

(** ** A scene without motion *)

Lemma absdiff_self (g : cv2.Plane) : cv2.absdiff g g = map (fun _ => 0) g.
Proof.
  unfold cv2.absdiff. induction g as [|x g IH]; simpl; [reflexivity|].
  rewrite IH, Z.sub_diag. reflexivity.
Qed.

Lemma subtract_zeros (g : cv2.Plane) :
  cv2.subtract (map (fun _ => 0) g) (map (fun _ => 0) g) = map (fun _ => 0) g.
Proof.
  unfold cv2.subtract. induction g as [|x g IH]; simpl; [reflexivity|].
  now rewrite IH.
Qed.

Lemma addWeighted_same (W : Q -> Q -> Q -> Z -> Z -> Z) (g : cv2.Plane) (a : Q) :
  keeps_equal_pixels W a ->
  Forall cv2.is_u8 g -> cv2.addWeighted W g a g (1 - a) 0 = g.
Proof.
  intros K U. unfold cv2.addWeighted. induction U as [|x g Hx U IH]; simpl.
  - reflexivity.
  - f_equal; [now apply K | exact IH].
Qed.

Lemma blend_keeps_equal_pixels (a : Q) : keeps_equal_pixels cv2.blend a.
Proof.
  intros x U. unfold cv2.blend. apply saturate8_integer; [ring | exact U].
Qed.

Section StillScene.

Variable G : cv2.Image -> cv2.Plane.
Variable W : Q -> Q -> Q -> Z -> Z -> Z.

Lemma still_step (p : Params) (g : cv2.Plane) (e : Engine) (f : cv2.Image) :
  (strategy p = "exponential"%string ->
   keeps_equal_pixels W (expA p) /\ keeps_equal_pixels W (expB p)) ->
  Forall cv2.is_u8 g ->
  G f = g ->
  static_img e <> None ->
  prev_frames e = (Some g, Some g, Some g) ->
  exists e',
    process_frame G W p e f = Return e' /\
    static_img e' <> None /\
    prev_frames e' = (Some g, Some g, Some g) /\
    gray e' = Some g /\
    diffs e' = Some (cv2.absdiff g g, cv2.absdiff g g, cv2.absdiff g g).
Proof.
  intros K U Hg Hs Hp.
  destruct (process_frame_ready G W p e f g g g Hs Hp) as (prev' & Hu & _ & Hr).
  rewrite Hp, Hg in Hu. unfold update_prev_frames in Hu.
  rewrite Hg in Hr.
  exists {| prev_frames := prev'; static_img := Some f;
            diffs := Some (cv2.absdiff g g, cv2.absdiff g g, cv2.absdiff g g);
            gray := Some g |}.
  split; [exact Hr|]. simpl. split; [discriminate|]. split; [|now split].
  destruct (String.eqb (strategy p) "exponential") eqn:E.
  - apply String.eqb_eq in E. destruct (K E) as [KA KB]. simpl in Hu.
    rewrite (addWeighted_same W g (expA p) KA U) in Hu.
    rewrite (addWeighted_same W g (expB p) KB U) in Hu.
    now injection Hu as <-.
  - destruct (String.eqb (strategy p) "sequential"); now injection Hu as <-.
Qed.

Lemma still_run (p : Params) (g : cv2.Plane) (fs : list cv2.Image) :
  (strategy p = "exponential"%string ->
   keeps_equal_pixels W (expA p) /\ keeps_equal_pixels W (expB p)) ->
  Forall cv2.is_u8 g ->
  (forall f, In f fs -> G f = g) ->
  forall e : Engine,
    static_img e <> None ->
    prev_frames e = (Some g, Some g, Some g) ->
    gray e = Some g ->
    (diffs e = None \/
     diffs e = Some (cv2.absdiff g g, cv2.absdiff g g, cv2.absdiff g g)) ->
    exists e',
      process_frames G W p e fs = Return e' /\
      gray e' = Some g /\
      (diffs e' = None \/
       diffs e' = Some (cv2.absdiff g g, cv2.absdiff g g, cv2.absdiff g g)).
Proof.
  intros K U. induction fs as [|f fs IH]; intros Hall e Hs Hp Hy Hd.
  - now exists e.
  - destruct (still_step p g e f K U (Hall f (or_introl eq_refl)) Hs Hp)
      as (e1 & H1 & Hs1 & Hp1 & Hy1 & Hd1).
    cbn [process_frames]. rewrite H1. cbn [bind].
    apply IH; try assumption.
    + intros f' Hin. apply Hall. now right.
    + now right.
Qed.

Lemma still_window (p : Params) (g : cv2.Plane) (fs : list cv2.Image) (e : Engine) :
  (strategy p = "exponential"%string ->
   keeps_equal_pixels W (expA p) /\ keeps_equal_pixels W (expB p)) ->
  Forall cv2.is_u8 g ->
  (forall f, In f fs -> G f = g) ->
  process_frames G W p init_engine fs = Return e ->
  diffs e = None \/
  (gray e = Some g /\
   diffs e = Some (cv2.absdiff g g, cv2.absdiff g g, cv2.absdiff g g)).
Proof.
  intros K U Hall. destruct fs as [|f0 fs].
  - intro H. injection H as <-. now left.
  - assert (H0 : G f0 = g) by (apply Hall; now left).
    destruct (still_run p g fs K U (fun f Hin => Hall f (or_intror Hin))
                {| prev_frames := (Some (G f0), Some (G f0), Some (G f0));
                   static_img := Some f0; diffs := None; gray := Some (G f0) |})
      as (e1 & H1 & Hy1 & Hd1); simpl; try (now rewrite H0); try discriminate.
    + now left.
    + intro H.
      change (process_frames G W p init_engine (f0 :: fs))
        with (process_frames G W p
                {| prev_frames := (Some (G f0), Some (G f0), Some (G f0));
                   static_img := Some f0; diffs := None; gray := Some (G f0) |} fs) in H.
      rewrite H1 in H. injection H as <-.
      destruct Hd1 as [Hd1|Hd1]; [now left | right; now split].
Qed.

End StillScene.

(** ** The channels of the motion image *)

Section ChannelProperties.

Variable resize : cv2.Image -> Q -> cv2.Image.
Variable G : cv2.Image -> cv2.Plane.
Variable W : Q -> Q -> Q -> Z -> Z -> Z.

Lemma process_frame_sized (p : Params) (n : nat) (e e' : Engine) (f : cv2.Image) :
  planes_sized n e ->
  List.length (G f) = n ->
  process_frame G W p e f = Return e' ->
  planes_sized n e'.
Proof.
  intros ((r0 & r1 & r2 & Hp & L0 & L1 & L2) & Hs & _ & _) Lg.
  unfold process_frame. destruct (static_img e) as [st|]; [|contradiction].
  rewrite Hp. cbn [array bind]. unfold update_prev_frames, cv2.absdiff, cv2.addWeighted.
  destruct (String.eqb (strategy p) "exponential");
    [|destruct (String.eqb (strategy p) "sequential")];
    cbn [array bind]; intro H; injection H as <-; unfold planes_sized; cbn;
    (split; [do 3 eexists; split; [reflexivity|];
             repeat split; rewrite ?map2_length; congruence|]);
    (split; [discriminate|]);
    (split; [intros d0 d1 d2 E; injection E as <- <- <-;
             repeat split; rewrite map2_length; congruence|]);
    intros g E; injection E as <-; exact Lg.
Qed.

Lemma process_frames_sized (p : Params) (n : nat) (fs : list cv2.Image) :
  forall e e' : Engine,
    planes_sized n e ->
    (forall f, In f fs -> List.length (G f) = n) ->
    process_frames G W p e fs = Return e' ->
    planes_sized n e'.
Proof.
  induction fs as [|f fs IH]; intros e e' Z Hall; cbn [process_frames].
  - intro H. now injection H as <-.
  - destruct (process_frame G W p e f) as [e1|x] eqn:E; [|discriminate].
    cbn [bind]. apply IH.
    + apply (process_frame_sized p n e e1 f Z (Hall f (or_introl eq_refl)) E).
    + intros f' Hin. apply Hall. now right.
Qed.

(** The planes the engine ends with have the size of the frames. *)
Lemma window_sized (p : Params) (n : nat) (fs : list cv2.Image) (e : Engine) :
  fs <> [] ->
  (forall f, In f fs -> List.length (G f) = n) ->
  process_frames G W p init_engine fs = Return e ->
  planes_sized n e.
Proof.
  destruct fs as [|f0 fs]; [contradiction|]. intros _ Hall.
  change (process_frames G W p init_engine (f0 :: fs))
    with (process_frames G W p
            {| prev_frames := (Some (G f0), Some (G f0), Some (G f0));
               static_img := Some f0; diffs := None; gray := Some (G f0) |} fs).
  apply process_frames_sized.
  - pose proof (Hall f0 (or_introl eq_refl)) as L0. unfold planes_sized; cbn.
    split; [now exists (G f0), (G f0), (G f0)|].
    split; [discriminate|]. split; [discriminate|].
    intros g E. now injection E as <-.
  - intros f Hin. apply Hall. now right.
Qed.

(** What [generate_base_images] composes a present motion image from: the
    luminance is the grayscale of the static image, the last frame of the
    window. *)
Lemma generate_base_images_parts (cap : VideoCapture) (frame_num : Z) (p : Params)
      (static motion : cv2.Image) :
  generate_base_images resize G W cap frame_num p = Return (Some static, Some motion) ->
  exists s e d0 d1 d2,
    read_window resize cap frame_num p = Return s /\
    process_frames G W p init_engine (collected s) = Return e /\
    diffs e = Some (d0, d1, d2) /\ gray e = Some (G static) /\
    motion_image W p (d0, d1, d2) (G static) = Return motion /\
    forall n, (forall f, In f (collected s) -> List.length (G f) = n) ->
              planes_sized n e.
Proof.
  intro Hg.
  destruct (generate_base_images_inv resize G W cap frame_num p static motion Hg)
    as (s & e & [[d0 d1] d2] & lum & Hs & He & Hd & Hl & Hst & Hm).
  assert (Ne : collected s <> []).
  { intro E. rewrite E in He. injection He as <-. discriminate. }
  destruct (exists_last Ne) as (l' & a & El).
  pose proof He as He'. rewrite El in He'.
  destruct (process_frames_last G W p l' a _ e He') as (Ha & Hy).
  rewrite Hst in Ha. injection Ha as ->.
  rewrite Hl in Hy. injection Hy as ->.
  exists s, e, d0, d1, d2. repeat (split; [assumption|]).
  intros n Hall. exact (window_sized p n (collected s) e Ne Hall He).
Qed.

(** C4. Direct mode. The motion image has a pixel exactly where the
    luminance (the grayscale of the static image, the last frame of the
    window) and the three differences of the last step have one, and that
    pixel is (blue, green, red) with
    blue the blend luminance*lumWeight + diff[0]*rgbMultipliers[2] + motionBias,
    green the blend luminance*lumWeight + diff[1]*rgbMultipliers[1] + motionBias,
    red the blend luminance*lumWeight + diff[2]*rgbMultipliers[0] + motionBias,
    each rounded and saturated to 8 bits by the kernel of [cv2.addWeighted],
    motionBias being the negated motion_threshold of the configuration.
    When every frame of the window has n pixels, so has the motion image. *)
Theorem direct_mode_channels (config : Config) (p : Params) (cap : VideoCapture)
        (frame_num : Z) (static motion : cv2.Image) :
  load_config config = Return p ->
  chromatic_tail_only p <> "true"%string ->
  generate_base_images resize G W cap frame_num p = Return (Some static, Some motion) ->
  exists s e diff0 diff1 diff2 lum m0 m1 m2,
    read_window resize cap frame_num p = Return s /\
    process_frames G W p init_engine (collected s) = Return e /\
    diffs e = Some (diff0, diff1, diff2) /\
    gray e = Some lum /\
    lum = G static /\
    nth_error (rgb_multipliers p) 0 = Some m0 /\
    nth_error (rgb_multipliers p) 1 = Some m1 /\
    nth_error (rgb_multipliers p) 2 = Some m2 /\
    (forall n : nat,
        (forall f, In f (collected s) -> List.length (G f) = n) ->
        List.length motion = n) /\
    forall i : nat,
      nth_error motion i =
      match nth_error lum i, nth_error diff0 i, nth_error diff1 i, nth_error diff2 i with
      | Some luminance, Some x0, Some x1, Some x2 =>
        let lumWeight := lum_weight p in
        let motionBias := inject_Z (- get (cfg_motion_threshold config) 0) in
        Some (W lumWeight m2 motionBias luminance x0,
              W lumWeight m1 motionBias luminance x1,
              W lumWeight m0 motionBias luminance x2)
      | _, _, _, _ => None
      end.
Proof.
  intros Hc Hmode Hg.
  destruct (load_config_fields config p Hc) as (_ & _ & Hbias & _).
  destruct (generate_base_images_parts cap frame_num p static motion Hg)
    as (s & e & d0 & d1 & d2 & Hs & He & Hd & Hl & Hm & Hsz).
  destruct (motion_image_inv W p d0 d1 d2 (G static) motion Hm)
    as (m0 & m1 & m2 & s0 & s1 & s2 & H0 & H1 & H2 & Hsel & ->).
  destruct (String.eqb (chromatic_tail_only p) "true") eqn:E;
    [apply String.eqb_eq in E; contradiction|].
  injection Hsel as -> -> ->.
  exists s, e, d0, d1, d2, (G static), m0, m1, m2.
  repeat (split; [first [assumption | reflexivity]|]). split.
  - intros n Hall. destruct (Hsz n Hall) as (_ & _ & Ld & Lg).
    destruct (Ld d0 d1 d2 Hd) as (L0 & L1 & L2).
    apply composed_length; auto.
  - intro i. cbv zeta. rewrite <- Hbias. apply composed_nth.
Qed.

(** C6. Chromatic-tail mode. At every pixel position the tails
    tailBlue = diff[0]-diff[1], tailRed = diff[2]-diff[1] and
    tailGreen = diff[1]-diff[0] are saturated 8-bit differences: each lies
    in [0,255], a negative difference gives 0 and a difference already in
    range is kept. The motion image has a pixel exactly where the luminance
    and the three differences have one, blended from the tails as in direct
    mode: blue from tailBlue and multiplier 2, green from tailGreen and
    multiplier 1, red from tailRed and multiplier 0. When every frame of the
    window has n pixels, so has the motion image. *)
Theorem chromatic_tail_channels (p : Params) (cap : VideoCapture)
        (frame_num : Z) (static motion : cv2.Image) :
  chromatic_tail_only p = "true"%string ->
  generate_base_images resize G W cap frame_num p = Return (Some static, Some motion) ->
  exists s e diff0 diff1 diff2 lum m0 m1 m2,
    read_window resize cap frame_num p = Return s /\
    process_frames G W p init_engine (collected s) = Return e /\
    diffs e = Some (diff0, diff1, diff2) /\
    gray e = Some lum /\
    lum = G static /\
    nth_error (rgb_multipliers p) 0 = Some m0 /\
    nth_error (rgb_multipliers p) 1 = Some m1 /\
    nth_error (rgb_multipliers p) 2 = Some m2 /\
    (forall n : nat,
        (forall f, In f (collected s) -> List.length (G f) = n) ->
        List.length motion = n) /\
    (forall (i : nat) (luminance x0 x1 x2 : Z),
      nth_error lum i = Some luminance ->
      nth_error diff0 i = Some x0 ->
      nth_error diff1 i = Some x1 ->
      nth_error diff2 i = Some x2 ->
      exists tailBlue tailGreen tailRed,
        tailBlue = cv2.saturate_u8 (x0 - x1) /\
        tailRed = cv2.saturate_u8 (x2 - x1) /\
        tailGreen = cv2.saturate_u8 (x1 - x0) /\
        cv2.is_u8 tailBlue /\ cv2.is_u8 tailRed /\ cv2.is_u8 tailGreen /\
        (x0 - x1 < 0 -> tailBlue = 0) /\
        (x2 - x1 < 0 -> tailRed = 0) /\
        (x1 - x0 < 0 -> tailGreen = 0) /\
        (cv2.is_u8 (x0 - x1) -> tailBlue = x0 - x1) /\
        (cv2.is_u8 (x2 - x1) -> tailRed = x2 - x1) /\
        (cv2.is_u8 (x1 - x0) -> tailGreen = x1 - x0) /\
        let lumWeight := lum_weight p in
        let motionBias := inject_Z (motion_threshold p) in
        nth_error motion i =
        Some (W lumWeight m2 motionBias luminance tailBlue,
              W lumWeight m1 motionBias luminance tailGreen,
              W lumWeight m0 motionBias luminance tailRed)) /\
    (forall i : nat,
        nth_error motion i <> None ->
        nth_error lum i <> None /\ nth_error diff0 i <> None /\
        nth_error diff1 i <> None /\ nth_error diff2 i <> None).
Proof.
  intros Hmode Hg.
  destruct (generate_base_images_parts cap frame_num p static motion Hg)
    as (s & e & d0 & d1 & d2 & Hs & He & Hd & Hl & Hm & Hsz).
  destruct (motion_image_inv W p d0 d1 d2 (G static) motion Hm)
    as (m0 & m1 & m2 & s0 & s1 & s2 & H0 & H1 & H2 & Hsel & ->).
  rewrite Hmode in Hsel. simpl in Hsel. injection Hsel as -> -> ->.
  exists s, e, d0, d1, d2, (G static), m0, m1, m2.
  repeat (split; [first [assumption | reflexivity]|]). split; [|split].
  - intros n Hall. destruct (Hsz n Hall) as (_ & _ & Ld & Lg).
    destruct (Ld d0 d1 d2 Hd) as (L0 & L1 & L2).
    apply composed_length; auto; unfold cv2.subtract;
      rewrite map2_length; congruence.
  - intros i l x0 x1 x2 El E0 E1 E2.
    exists (cv2.saturate_u8 (x0 - x1)), (cv2.saturate_u8 (x1 - x0)),
           (cv2.saturate_u8 (x2 - x1)).
    repeat (split; [reflexivity|]).
    repeat (split; [first [apply saturate_u8_range
                          | unfold cv2.saturate_u8; lia
                          | apply saturate_u8_id]|]).
    cbv zeta. rewrite composed_nth. unfold cv2.subtract. rewrite !map2_nth.
    rewrite El, E0, E1, E2. reflexivity.
  - intros i. rewrite composed_nth. unfold cv2.subtract. rewrite !map2_nth.
    destruct (nth_error (G static) i); [|contradiction].
    destruct (nth_error d0 i); [|contradiction].
    destruct (nth_error d1 i); [|contradiction].
    destruct (nth_error d2 i); [|contradiction].
    intros _. repeat split; discriminate.
Qed.

End ChannelProperties.

(** ** Edge behaviour of generate_base_images *)

Section GenerateEdges.

Variable resize : cv2.Image -> Q -> cv2.Image.
Variable G : cv2.Image -> cv2.Plane.
Variable W : Q -> Q -> Q -> Z -> Z -> Z.

Lemma guards_pass (cap : VideoCapture) (frame_num : Z) (p : Params) :
  isOpened cap = true ->
  0 < CAP_PROP_FRAME_COUNT cap ->
  start_frame p frame_num <= CAP_PROP_FRAME_COUNT cap - 1 ->
  generate_base_images resize G W cap frame_num p = after_guards resize G W cap frame_num p.
Proof.
  intros Ho Ht Hs. rewrite generate_base_images_guards, Ho. cbn [negb].
  replace (CAP_PROP_FRAME_COUNT cap <=? 0) with false by (symmetry; apply Z.leb_gt; lia).
  replace (CAP_PROP_FRAME_COUNT cap - 1 <? start_frame p frame_num) with false
    by (symmetry; apply Z.ltb_ge; lia).
  reflexivity.
Qed.

Lemma after_guards_two (cap : VideoCapture) (frame_num : Z) (p : Params) (s : Sampler) :
  read_window resize cap frame_num p = Return s ->
  (2 <= List.length (collected s))%nat ->
  exists e st ds g,
    process_frames G W p init_engine (collected s) = Return e /\
    static_img e = Some st /\ diffs e = Some ds /\ gray e = Some g /\
    after_guards resize G W cap frame_num p =
    (motion_img <- motion_image W p ds g ;; Return (Some st, Some motion_img)).
Proof.
  intros H L. unfold after_guards. rewrite H. cbn [bind].
  destruct (collected s) as [|f0 [|f1 fs]]; [simpl in L; lia | simpl in L; lia |].
  destruct (process_two_or_more G W p f0 f1 fs) as (e & st & ds & g & He & Hst & Hd & Hg).
  exists e, st, ds, g. rewrite He. cbn [bind]. rewrite Hd, Hg, Hst.
  now repeat split.
Qed.

(** X3. The two results go together: [generate_base_images] never returns
    one image without the other. *)
Theorem result_all_or_nothing (cap : VideoCapture) (frame_num : Z) (p : Params)
        (static motion : option cv2.Image) :
  generate_base_images resize G W cap frame_num p = Return (static, motion) ->
  (static = None /\ motion = None) \/
  (exists st m, static = Some st /\ motion = Some m).
Proof.
  rewrite generate_base_images_guards.
  destruct (negb (isOpened cap)); [intro H; injection H as <- <-; now left|].
  destruct (CAP_PROP_FRAME_COUNT cap <=? 0); [intro H; injection H as <- <-; now left|].
  destruct (CAP_PROP_FRAME_COUNT cap - 1 <? start_frame p frame_num);
    [intro H; injection H as <- <-; now left|].
  unfold after_guards.
  destruct (read_window resize cap frame_num p) as [s|x]; [|discriminate].
  cbn [bind]. destruct (collected s) as [|f fs] eqn:Ec;
    [intro H; injection H as <- <-; now left|].
  destruct (process_frames G W p init_engine (f :: fs)) as [e|x] eqn:Ep; [|discriminate].
  cbn [bind].
  destruct (diffs e) as [ds|]; [|intro H; injection H as <- <-; now left].
  destruct (gray e) as [g|]; [|intro H; injection H as <- <-; now left].
  destruct (motion_image W p ds g) as [m|x]; [|discriminate].
  cbn [bind]. intro H. injection H as <- <-. right.
  destruct (exists_last (l := f :: fs) ltac:(discriminate)) as (l' & a & El).
  rewrite El in Ep. destruct (process_frames_last G W p l' a _ e Ep) as (Hst & _).
  now exists a, m.
Qed.

(** X4. Partial windows are tolerated: once the guards are passed and three
    multipliers are configured, the result is present exactly when the
    sampler collected at least two frames, however many were asked for. *)
Theorem present_iff_two_frames (cap : VideoCapture) (frame_num : Z) (p : Params)
        (s : Sampler) :
  isOpened cap = true ->
  0 < CAP_PROP_FRAME_COUNT cap ->
  start_frame p frame_num <= CAP_PROP_FRAME_COUNT cap - 1 ->
  (3 <= List.length (rgb_multipliers p))%nat ->
  read_window resize cap frame_num p = Return s ->
  ((exists st m, generate_base_images resize G W cap frame_num p =
                 Return (Some st, Some m)) <->
   (2 <= List.length (collected s))%nat).
Proof.
  intros Ho Ht Hs Hrgb H. split.
  - intros (st & m & Hg).
    destruct (Nat.lt_ge_cases (List.length (collected s)) 2) as [L|L]; [|exact L].
    rewrite (generate_base_images_few resize G W cap frame_num p s H L) in Hg.
    discriminate.
  - intro L. rewrite (guards_pass cap frame_num p Ho Ht Hs).
    destruct (after_guards_two cap frame_num p s H L)
      as (e & st & ds & g & _ & _ & _ & _ & ->).
    destruct (motion_image_returns W p ds g Hrgb) as (m & ->).
    now exists st, m.
Qed.

(** X5. With fewer than three multipliers (which [load_config] accepts) a
    window of two or more frames makes the compositor raise IndexError. *)
Theorem short_multipliers_raise (cap : VideoCapture) (frame_num : Z) (p : Params)
        (s : Sampler) :
  isOpened cap = true ->
  0 < CAP_PROP_FRAME_COUNT cap ->
  start_frame p frame_num <= CAP_PROP_FRAME_COUNT cap - 1 ->
  (List.length (rgb_multipliers p) < 3)%nat ->
  read_window resize cap frame_num p = Return s ->
  (2 <= List.length (collected s))%nat ->
  generate_base_images resize G W cap frame_num p = Raise IndexError.
Proof.
  intros Ho Ht Hs Hrgb H L. rewrite (guards_pass cap frame_num p Ho Ht Hs).
  destruct (after_guards_two cap frame_num p s H L)
    as (e & st & [[d0 d1] d2] & g & _ & _ & _ & _ & ->).
  unfold motion_image, index.
  replace (nth_error (rgb_multipliers p) 2) with (@None Q)
    by (symmetry; apply nth_error_None; lia).
  destruct (String.eqb (chromatic_tail_only p) "true"); reflexivity.
Qed.

(** X6. A stride of zero (frame_skip = -1, which [load_config] accepts)
    makes the reading loop raise ZeroDivisionError as soon as a first frame
    is read. *)
Theorem zero_stride_raises (cap : VideoCapture) (frame_num : Z) (p : Params) :
  step_of p = 0 ->
  isOpened cap = true ->
  0 < CAP_PROP_FRAME_COUNT cap ->
  start_frame p frame_num <= CAP_PROP_FRAME_COUNT cap - 1 ->
  1 <= base_frame_window p ->
  (Z.to_nat (start_frame p frame_num) < List.length (decodable cap))%nat ->
  generate_base_images resize G W cap frame_num p = Raise ZeroDivisionError.
Proof.
  intros Hz Ho Ht Hs Hn Hd. rewrite (guards_pass cap frame_num p Ho Ht Hs).
  unfold after_guards, read_window. rewrite read_loop_eq.
  cbn [init_sampler collected idx List.length].
  replace (Z.of_nat 0 <? base_frame_window p) with true
    by (symmetry; apply Z.ltb_lt; lia).
  replace (start_frame p frame_num <=? CAP_PROP_FRAME_COUNT cap - 1) with true
    by (symmetry; apply Z.leb_le; lia).
  cbn [andb]. unfold seek.
  destruct (skipn (Z.to_nat (start_frame p frame_num)) (decodable cap)) as [|frame rest] eqn:E.
  - apply (f_equal (@List.length _)) in E. rewrite length_skipn in E. simpl in E. lia.
  - rewrite Hz. reflexivity.
Qed.

(** X7. A window whose frames all have the same 8-bit grayscale image
    carries no motion signal. In both modes and under every strategy the
    motion image has exactly the pixels of that grayscale image, and at each
    of them the channels are the kernel's blend of the luminance with a zero
    signal: weights lum_weight and rgb_multipliers[2], [1], [0] for blue,
    green, red, offset motion_threshold. Under the exponential strategy this
    is for a kernel that returns x when it blends x with x at the weights
    expA, 1 - expA and expB, 1 - expB. *)
Theorem still_scene_has_no_signal (cap : VideoCapture) (frame_num : Z) (p : Params)
        (s : Sampler) (g : cv2.Plane) (static motion : cv2.Image) :
  read_window resize cap frame_num p = Return s ->
  (forall f, In f (collected s) -> G f = g) ->
  Forall cv2.is_u8 g ->
  (strategy p = "exponential"%string ->
   keeps_equal_pixels W (expA p) /\ keeps_equal_pixels W (expB p)) ->
  generate_base_images resize G W cap frame_num p = Return (Some static, Some motion) ->
  exists m0 m1 m2,
    nth_error (rgb_multipliers p) 0 = Some m0 /\
    nth_error (rgb_multipliers p) 1 = Some m1 /\
    nth_error (rgb_multipliers p) 2 = Some m2 /\
    List.length motion = List.length g /\
    forall i : nat,
      nth_error motion i =
      match nth_error g i with
      | Some luminance =>
        let bias := inject_Z (motion_threshold p) in
        Some (W (lum_weight p) m2 bias luminance 0,
              W (lum_weight p) m1 bias luminance 0,
              W (lum_weight p) m0 bias luminance 0)
      | None => None
      end.
Proof.
  intros H Hall U K Hg.
  destruct (generate_base_images_inv resize G W cap frame_num p static motion Hg)
    as (s' & e & [[d0 d1] d2] & lum & Hs' & He & Hd & Hl & _ & Hm).
  rewrite H in Hs'. injection Hs' as <-.
  destruct (still_window G W p g (collected s) e K U Hall He) as [Hn|(Hy & Hz)];
    [congruence|].
  rewrite Hl in Hy. injection Hy as ->.
  rewrite Hd in Hz. injection Hz as -> -> ->.
  destruct (motion_image_inv W p _ _ _ g motion Hm)
    as (m0 & m1 & m2 & s0 & s1 & s2 & H0 & H1 & H2 & Hsel & ->).
  rewrite absdiff_self in Hsel.
  assert (E : (s0, s1, s2) =
              (map (fun _ => 0) g, map (fun _ => 0) g, map (fun _ => 0) g)).
  { destruct (String.eqb (chromatic_tail_only p) "true");
      [rewrite subtract_zeros in Hsel|]; exact Hsel. }
  injection E as -> -> ->.
  exists m0, m1, m2. repeat (split; [assumption|]). split.
  - apply composed_length; try reflexivity; apply length_map.
  - intro i. rewrite composed_nth, nth_error_map.
    destruct (nth_error g i); reflexivity.
Qed.

End GenerateEdges.

(** ** Which frames a window is made of *)

Lemma mod_opp_succ (step r : Z) :
  1 <= step ->
  (- (r + 1)) mod step =
  if r mod step =? 0 then step - 1 else (- r) mod step - 1.
Proof.
  intro Hstep.
  pose proof (Z.div_mod r step ltac:(lia)) as D.
  pose proof (Z.mod_pos_bound r step ltac:(lia)) as B.
  destruct (r mod step =? 0) eqn:M.
  - apply Z.eqb_eq in M. symmetry.
    apply (Z.mod_unique _ _ (- (r / step) - 1)); [lia | nia].
  - apply Z.eqb_neq in M.
    assert (E : (- r) mod step = step - r mod step).
    { symmetry. apply (Z.mod_unique _ _ (- (r / step) - 1)); [lia | nia]. }
    rewrite E. symmetry.
    apply (Z.mod_unique _ _ (- (r / step) - 1)); [lia | nia].
Qed.

Lemma mod_opp_zero (step r : Z) :
  1 <= step -> r mod step = 0 -> (- r) mod step = 0.
Proof.
  intros Hstep M. apply Z.mod_opp_l_z; [lia | exact M].
Qed.

Lemma retain_multiples_nth {A : Type} (step : Z) :
  1 <= step ->
  forall (frames : list A) (r : Z) (k : nat),
    nth_error (retain_multiples step r frames) k =
    nth_error frames (Z.to_nat ((- r) mod step + Z.of_nat k * step)).
Proof.
  intros Hstep frames. induction frames as [|x frames IH]; intros r k.
  - simpl. now rewrite !nth_error_nil.
  - pose proof (Z.mod_pos_bound (- r) step ltac:(lia)) as B.
    pose proof (mod_opp_succ step r Hstep) as Hs.
    simpl retain_multiples. destruct (r mod step =? 0) eqn:M.
    + apply Z.eqb_eq in M. rewrite (mod_opp_zero step r Hstep M).
      destruct k as [|k].
      * reflexivity.
      * cbn [nth_error]. rewrite IH, Hs.
        replace (Z.to_nat (0 + Z.of_nat (S k) * step))
          with (S (Z.to_nat (step - 1 + Z.of_nat k * step))) by nia.
        reflexivity.
    + apply Z.eqb_neq in M.
      assert (Hd : (- r) mod step <> 0).
      { intro E. apply M. apply (mod_opp_zero step (- r) Hstep) in E.
        now rewrite Z.opp_involutive in E. }
      rewrite IH, Hs.
      replace (Z.to_nat ((- r) mod step + Z.of_nat k * step))
        with (S (Z.to_nat ((- r) mod step - 1 + Z.of_nat k * step))) by nia.
      reflexivity.
Qed.

Lemma source_from_nth (cap : VideoCapture) (start : Z) (j : nat) :
  0 <= start ->
  nth_error (source_from cap start) j =
  if Z.of_nat j <? CAP_PROP_FRAME_COUNT cap - start
  then nth_error (decodable cap) (Z.to_nat (start + Z.of_nat j))
  else None.
Proof.
  intro Hs. unfold source_from, seek. rewrite nth_error_firstn, nth_error_skipn.
  destruct (Z.of_nat j <? CAP_PROP_FRAME_COUNT cap - start) eqn:E.
  - apply Z.ltb_lt in E.
    replace (j <? Z.to_nat (CAP_PROP_FRAME_COUNT cap - start))%nat with true
      by (symmetry; apply Nat.ltb_lt; lia).
    f_equal. lia.
  - apply Z.ltb_ge in E.
    replace (j <? Z.to_nat (CAP_PROP_FRAME_COUNT cap - start))%nat with false
      by (symmetry; apply Nat.ltb_ge; lia).
    reflexivity.
Qed.

Section WindowFrames.

Variable resize : cv2.Image -> Q -> cv2.Image.

Lemma sample_nth (cap : VideoCapture) (frame_num : Z) (p : Params) (k : nat) :
  1 <= step_of p ->
  nth_error (sample resize cap frame_num p) k =
  if (Z.of_nat k <? base_frame_window p)
     && (start_frame p frame_num + Z.of_nat k * step_of p <? CAP_PROP_FRAME_COUNT cap)
  then option_map (scaled resize p)
                  (nth_error (decodable cap)
                             (Z.to_nat (start_frame p frame_num + Z.of_nat k * step_of p)))
  else None.
Proof.
  intro Hstep. unfold sample. fold (step_of p). fold (start_frame p frame_num).
  assert (H0 : 0 <= start_frame p frame_num) by (unfold start_frame; lia).
  rewrite nth_error_map, nth_error_firstn.
  destruct (Z.of_nat k <? base_frame_window p) eqn:E1.
  - apply Z.ltb_lt in E1.
    replace (k <? Z.to_nat (base_frame_window p))%nat with true
      by (symmetry; apply Nat.ltb_lt; lia).
    rewrite (retain_multiples_nth (step_of p) Hstep), source_from_nth by exact H0.
    change ((- 0) mod step_of p) with (0 mod step_of p).
    rewrite Z.mod_0_l by lia. rewrite Z.add_0_l.
    rewrite Z2Nat.id by nia.
    cbn [andb].
    replace (Z.of_nat k * step_of p <? CAP_PROP_FRAME_COUNT cap - start_frame p frame_num)
      with (start_frame p frame_num + Z.of_nat k * step_of p <? CAP_PROP_FRAME_COUNT cap).
    + destruct (start_frame p frame_num + Z.of_nat k * step_of p <? CAP_PROP_FRAME_COUNT cap);
        reflexivity.
    + destruct (Z.ltb_spec (start_frame p frame_num + Z.of_nat k * step_of p)
                           (CAP_PROP_FRAME_COUNT cap));
        symmetry; [apply Z.ltb_lt | apply Z.ltb_ge]; lia.
  - apply Z.ltb_ge in E1.
    replace (k <? Z.to_nat (base_frame_window p))%nat with false
      by (symmetry; apply Nat.ltb_ge; lia).
    reflexivity.
Qed.

(** X8. The frames a window uses are start, start+step, ...,
    start+(N-1)*step: the k-th collected frame is the (scaled) frame at
    index start_frame + k*step, for k below the window size and an index
    below the reported frame count, and there is no k-th frame otherwise. *)
Theorem collected_frame_indices (cap : VideoCapture) (frame_num : Z) (p : Params)
        (k : nat) :
  1 <= step_of p ->
  frame_window p = base_frame_window p * step_of p ->
  exists s,
    read_window resize cap frame_num p = Return s /\
    nth_error (collected s) k =
    if (Z.of_nat k <? base_frame_window p)
       && (start_frame p frame_num + Z.of_nat k * step_of p <? CAP_PROP_FRAME_COUNT cap)
    then option_map (scaled resize p)
                    (nth_error (decodable cap)
                               (Z.to_nat (start_frame p frame_num + Z.of_nat k * step_of p)))
    else None.
Proof.
  intros Hstep Hfw.
  destruct (read_window_collects resize cap frame_num p Hstep Hfw) as (s & H & E).
  exists s. split; [exact H|]. rewrite E. now apply sample_nth.
Qed.

End WindowFrames.

Section WindowEnd.

Variable resize : cv2.Image -> Q -> cv2.Image.
Variable G : cv2.Image -> cv2.Plane.
Variable W : Q -> Q -> Q -> Z -> Z -> Z.

(** X9. For a full window the static image is the (scaled) frame at index
    start_frame + (N-1)*step. That index is frame_num itself when the window
    is not clamped (frame_num >= (N-1)*step); when the start is clamped to 0
    it is (N-1)*step, a frame after frame_num. *)
Theorem static_image_is_window_end (cap : VideoCapture) (frame_num : Z) (p : Params) :
  isOpened cap = true ->
  2 <= base_frame_window p ->
  1 <= step_of p ->
  frame_window p = base_frame_window p * step_of p ->
  (3 <= List.length (rgb_multipliers p))%nat ->
  0 <= frame_num < CAP_PROP_FRAME_COUNT cap ->
  base_frame_window p * step_of p <= CAP_PROP_FRAME_COUNT cap ->
  CAP_PROP_FRAME_COUNT cap <= Z.of_nat (List.length (decodable cap)) ->
  let last_index := start_frame p frame_num + (base_frame_window p - 1) * step_of p in
  exists frame motion,
    nth_error (decodable cap) (Z.to_nat last_index) = Some frame /\
    generate_base_images resize G W cap frame_num p =
    Return (Some (scaled resize p frame), Some motion) /\
    ((base_frame_window p - 1) * step_of p <= frame_num -> last_index = frame_num) /\
    (frame_num < (base_frame_window p - 1) * step_of p ->
     last_index = (base_frame_window p - 1) * step_of p).
Proof.
  intros Ho Hn Hstep Hfw Hrgb Hf Hfit Hdec last_index.
  assert (Hm : 0 <= (base_frame_window p - 1) * step_of p) by nia.
  assert (Hb : (base_frame_window p - 1) * step_of p =
               base_frame_window p * step_of p - step_of p) by ring.
  assert (Hs : start_frame p frame_num =
               Z.max 0 (frame_num - (base_frame_window p - 1) * step_of p))
    by reflexivity.
  assert (Hlast : 0 <= last_index < CAP_PROP_FRAME_COUNT cap) by (subst last_index; lia).
  destruct (read_window_collects resize cap frame_num p Hstep Hfw) as (s & H & E).
  pose proof (sample_full resize cap frame_num p Hstep ltac:(lia) Hf Hfit Hdec) as L.
  pose proof (sample_nth resize cap frame_num p
                         (Z.to_nat (base_frame_window p) - 1) Hstep) as Hk.
  rewrite <- E in L, Hk.
  replace (Z.of_nat (Z.to_nat (base_frame_window p) - 1))
    with (base_frame_window p - 1) in Hk by lia.
  fold last_index in Hk.
  replace (base_frame_window p - 1 <? base_frame_window p) with true in Hk
    by (symmetry; apply Z.ltb_lt; lia).
  replace (last_index <? CAP_PROP_FRAME_COUNT cap) with true in Hk
    by (symmetry; apply Z.ltb_lt; lia).
  cbn [andb] in Hk.
  destruct (nth_error (decodable cap) (Z.to_nat last_index)) as [frame|] eqn:Ef;
    [|apply nth_error_None in Ef; lia].
  cbn [option_map] in Hk.
  destruct (after_guards_two resize G W cap frame_num p s H ltac:(lia))
    as (e & st & ds & g & He & Hst & _ & _ & Ha).
  assert (Hne : collected s <> []) by (intro N0; rewrite N0 in L; simpl in L; lia).
  destruct (exists_last Hne) as (l' & a & El).
  rewrite El in He, L, Hk. rewrite length_app in L. simpl in L.
  rewrite nth_error_app2 in Hk by lia.
  replace (Z.to_nat (base_frame_window p) - 1 - List.length l')%nat with 0%nat in Hk by lia.
  simpl in Hk. injection Hk as ->.
  destruct (process_frames_last G W p l' _ _ e He) as (Hst' & _).
  rewrite Hst in Hst'. injection Hst' as ->.
  destruct (motion_image_returns W p ds g Hrgb) as (m & Hm').
  exists frame, m. split; [reflexivity|]. split.
  - rewrite (guards_pass resize G W cap frame_num p Ho ltac:(lia) ltac:(lia)).
    rewrite Ha, Hm'. reflexivity.
  - subst last_index. split; lia.
Qed.

End WindowEnd.

(** ** Grey boxes *)

Lemma mapi_from_nth {A B : Type} (f : nat -> A -> B) :
  forall (l : list A) (i k : nat),
    nth_error (mapi_from f i l) k = option_map (f (i + k)%nat) (nth_error l k).
Proof.
  induction l as [|a l IH]; intros i k.
  - destruct k; reflexivity.
  - destruct k as [|k]; simpl.
    + now rewrite Nat.add_0_r.
    + rewrite IH. now rewrite Nat.add_succ_r.
Qed.

Lemma mapi_from_length {A B : Type} (f : nat -> A -> B) :
  forall (l : list A) (i : nat), List.length (mapi_from f i l) = List.length l.
Proof.
  induction l as [|a l IH]; intro i; simpl; [reflexivity | now rewrite IH].
Qed.

Lemma rectangle_inv (img : Mat) (b : Box) (out : Mat) :
  rectangle img b grey = Some out -> drawable b = true /\ painted img [b] out.
Proof.
  unfold rectangle. destruct (drawable b); [|discriminate].
  intro H. injection H as <-. split; [reflexivity|]. unfold painted. cbn [cols data].
  split; [reflexivity|]. split; [apply mapi_from_length|].
  intro i. rewrite mapi_from_nth. cbn [existsb Nat.add].
  destruct (nth_error (data img) i); [|reflexivity]. cbn [option_map].
  now rewrite orb_false_r.
Qed.

Lemma rectangle_returns (img : Mat) (b : Box) :
  drawable b = true -> exists out, rectangle img b grey = Some out.
Proof. unfold rectangle. intros ->. now eexists. Qed.

Lemma draw_grey_none (boxes : list Box) : fold_left draw_grey boxes None = None.
Proof. induction boxes as [|b boxes IH]; [reflexivity | exact IH]. Qed.

Lemma painted_step (img mid out : Mat) (b : Box) (boxes : list Box) :
  painted img [b] mid -> painted mid boxes out -> painted img (b :: boxes) out.
Proof.
  intros (C1 & L1 & N1) (C2 & L2 & N2). unfold painted.
  split; [congruence|]. split; [congruence|].
  intro i. rewrite N2, N1. unfold pixel_x, pixel_y. rewrite C1.
  destruct (nth_error (data img) i) as [px|]; [|reflexivity].
  cbn [option_map existsb]. rewrite orb_false_r.
  destruct (inside b (Z.of_nat i mod cols img) (Z.of_nat i / cols img)); cbn [orb].
  - now destruct (existsb _ boxes).
  - reflexivity.
Qed.

Lemma painted_nil (img : Mat) : painted img [] img.
Proof.
  unfold painted. split; [reflexivity|]. split; [reflexivity|].
  intro i. now destruct (nth_error (data img) i).
Qed.

Lemma grey_boxes_inv (boxes : list Box) :
  forall img out : Mat,
    apply_grey_boxes img boxes = Some out ->
    forallb drawable boxes = true /\ painted img boxes out.
Proof.
  unfold apply_grey_boxes. induction boxes as [|b boxes IH]; intros img out; cbn [fold_left].
  - intro H. injection H as <-. split; [reflexivity | apply painted_nil].
  - cbn [draw_grey]. destruct (rectangle img b grey) as [mid|] eqn:E.
    + intro H. destruct (rectangle_inv img b mid E) as (D & P1).
      destruct (IH mid out H) as (Ds & P2).
      split; [cbn [forallb]; now rewrite D, Ds|].
      now apply (painted_step img mid out).
    + rewrite draw_grey_none. discriminate.
Qed.

Lemma grey_boxes_returns (boxes : list Box) :
  forall img : Mat,
    forallb drawable boxes = true -> exists out, apply_grey_boxes img boxes = Some out.
Proof.
  unfold apply_grey_boxes. induction boxes as [|b boxes IH]; intros img D; cbn [fold_left].
  - now exists img.
  - cbn [forallb] in D. apply andb_true_iff in D. destruct D as [Db Ds].
    cbn [draw_grey]. destruct (rectangle_returns img b Db) as (mid & ->).
    now apply IH.
Qed.

Lemma undrawable_box (boxes : list Box) :
  forallb drawable boxes = false <-> exists b, In b boxes /\ drawable b = false.
Proof.
  induction boxes as [|b boxes IH]; cbn [forallb].
  - split; [discriminate | intros (b & [] & _)].
  - rewrite andb_false_iff, IH. split.
    + intros [D|(b' & Hin & D)]; [exists b; split; [now left | exact D]|].
      exists b'. split; [now right | exact D].
    + intros (b' & [<-|Hin] & D); [now left | right; now exists b'].
Qed.

Lemma grey_boxes_fail (img : Mat) (boxes : list Box) :
  apply_grey_boxes img boxes = None <-> exists b, In b boxes /\ drawable b = false.
Proof.
  rewrite <- undrawable_box. split.
  - intro H. destruct (forallb drawable boxes) eqn:D; [|reflexivity].
    destruct (grey_boxes_returns boxes img D) as (out & E). congruence.
  - intro D. destruct (apply_grey_boxes img boxes) as [out|] eqn:E; [|reflexivity].
    apply grey_boxes_inv in E. destruct E as [E _]. congruence.
Qed.

(** X10. Grey boxes. The call raises exactly when some box has a coordinate
    that is not a C int; otherwise it returns an image of the same width and
    pixel count in which a pixel is grey (128,128,128) exactly when it lies
    in at least one box, corners included, and is untouched otherwise, so
    that neither the order of the boxes nor their overlap matters.
    [apply_blocking_boxes] is the same operation. *)
Theorem grey_boxes_pixels (img : Mat) (boxes : list Box) :
  (apply_grey_boxes img boxes = None <->
   exists b, In b boxes /\ drawable b = false) /\
  (forallb drawable boxes = true ->
   exists out,
     apply_grey_boxes img boxes = Some out /\
     cols out = cols img /\
     List.length (data out) = List.length (data img) /\
     forall i : nat,
       nth_error (data out) i =
       option_map (fun px =>
                     if existsb (fun b => inside b (pixel_x img i) (pixel_y img i)) boxes
                     then grey else px)
                  (nth_error (data img) i)) /\
  apply_blocking_boxes img boxes = apply_grey_boxes img boxes.
Proof.
  split; [apply grey_boxes_fail|]. split; [|reflexivity].
  intro D. destruct (grey_boxes_returns boxes img D) as (out & E).
  exists out. split; [exact E|]. now apply grey_boxes_inv in E.
Qed.

Lemma grey_boxes_app (img : Mat) (a b : list Box) :
  match apply_grey_boxes img a with
  | Some mid => apply_blocking_boxes mid b
  | None => None
  end = apply_grey_boxes img (a ++ b).
Proof.
  unfold apply_blocking_boxes, apply_grey_boxes. rewrite fold_left_app.
  destruct (fold_left draw_grey a (Some img)); [reflexivity|].
  now rewrite draw_grey_none.
Qed.

(** X11. The motion image that is written. The item is aborted by an
    exception exactly when a mask box has a coordinate that is not a C int
    or, with static_blocks_motion 'true', when reading the static labels
    raises or gives such a box. Otherwise every pixel lying in a mask box
    or, with the flag set, in a box of the static labels is grey and every
    other pixel is the one of the motion image; the static labels are read
    only when the flag is set. *)
Theorem motion_final_pixels (F : Type) (float : string -> option F)
        (corners : Z -> Z -> F -> F -> F -> F -> option Box)
        (p : Params) (motion_img : Mat) (motion_mask_boxes : list Box)
        (static_label_file : option (list (list string))) (img_w img_h : Z) :
  match motion_final float corners p motion_img motion_mask_boxes
                     static_label_file img_w img_h with
  | Some out =>
    exists static_boxes,
      (if String.eqb (static_blocks_motion p) "true"
       then get_blocking_boxes float corners static_label_file img_w img_h =
            Some static_boxes
       else static_boxes = []) /\
      forallb drawable (motion_mask_boxes ++ static_boxes) = true /\
      cols out = cols motion_img /\
      List.length (data out) = List.length (data motion_img) /\
      forall i : nat,
        nth_error (data out) i =
        option_map (fun px =>
                      if existsb (fun b => inside b (pixel_x motion_img i)
                                                  (pixel_y motion_img i))
                                 (motion_mask_boxes ++ static_boxes)
                      then grey else px)
                   (nth_error (data motion_img) i)
  | None =>
    (exists b, In b motion_mask_boxes /\ drawable b = false) \/
    (static_blocks_motion p = "true"%string /\
     (get_blocking_boxes float corners static_label_file img_w img_h = None \/
      exists static_boxes b,
        get_blocking_boxes float corners static_label_file img_w img_h =
        Some static_boxes /\
        In b static_boxes /\ drawable b = false))
  end.
Proof.
  unfold motion_final.
  destruct (apply_grey_boxes motion_img motion_mask_boxes) as [mid|] eqn:Em;
    [|left; exact (proj1 (grey_boxes_fail motion_img motion_mask_boxes) Em)].
  destruct (String.eqb (static_blocks_motion p) "true") eqn:Fl.
  - apply String.eqb_eq in Fl.
    destruct (get_blocking_boxes float corners static_label_file img_w img_h)
      as [sb|]; [|right; split; [exact Fl | now left]].
    pose proof (grey_boxes_app motion_img motion_mask_boxes sb) as A.
    rewrite Em in A. rewrite A.
    destruct (apply_grey_boxes motion_img (motion_mask_boxes ++ sb)) as [out|] eqn:Eo.
    + exists sb. split; [reflexivity|].
      apply grey_boxes_inv in Eo. destruct Eo as (D & P). split; [exact D | exact P].
    + apply grey_boxes_fail in Eo. destruct Eo as (b & Hin & D).
      apply in_app_or in Hin. destruct Hin as [Hin|Hin].
      * left. now exists b.
      * right. split; [exact Fl|]. right. now exists sb, b.
  - exists []. split; [reflexivity|]. rewrite app_nil_r.
    apply grey_boxes_inv in Em. destruct Em as (D & P). split; [exact D | exact P].
Qed.

(** ** Blocking boxes from labels *)

Lemma int_of_float_nonneg (q : Q) : (0 <= q)%Q -> int_of_float q = Qfloor q.
Proof.
  destruct q as [n d]. unfold Qle, int_of_float, Qfloor. simpl. intro H.
  apply Z.quot_div_nonneg; lia.
Qed.

Lemma int_of_float_nonpos (q : Q) : (q <= 0)%Q -> int_of_float q = Qceiling q.
Proof.
  destruct q as [n d]. unfold Qle, int_of_float, Qceiling, Qfloor. simpl. intro H.
  rewrite <- (Z.opp_involutive n) at 1.
  rewrite Z.quot_opp_l by lia. f_equal. apply Z.quot_div_nonneg; lia.
Qed.

Lemma int_of_float_mono (q q' : Q) :
  (q <= q')%Q -> int_of_float q <= int_of_float q'.
Proof.
  intro H. destruct (Qlt_le_dec q 0) as [N|P].
  - destruct (Qlt_le_dec 0 q') as [P'|N'].
    + rewrite (int_of_float_nonpos q) by lra.
      rewrite (int_of_float_nonneg q') by lra.
      apply Z.le_trans with 0.
      * change 0 with (Qceiling 0). apply Qceiling_resp_le. lra.
      * change 0 with (Qfloor 0). apply Qfloor_resp_le. lra.
    + rewrite !int_of_float_nonpos by lra. now apply Qceiling_resp_le.
  - rewrite !int_of_float_nonneg by lra. now apply Qfloor_resp_le.
Qed.

Lemma int_of_float_integer (z : Z) : int_of_float (inject_Z z) = z.
Proof. unfold int_of_float. simpl. apply Z.quot_1_r. Qed.

Lemma label_box_within (img_w img_h : Z) (xc yc w h : Q) :
  0 <= img_w -> 0 <= img_h ->
  normalised xc yc w h ->
  within img_w img_h (label_box img_w img_h xc yc w h).
Proof.
  intros Hw Hh (W & H & X1 & X2 & Y1 & Y2).
  unfold label_box. unfold Qdiv in *. change (/ 2)%Q with (1 # 2)%Q in *.
  assert (Qw : (0 <= inject_Z img_w)%Q)
    by (change 0%Q with (inject_Z 0); rewrite <- Zle_Qle; exact Hw).
  assert (Qh : (0 <= inject_Z img_h)%Q)
    by (change 0%Q with (inject_Z 0); rewrite <- Zle_Qle; exact Hh).
  unfold within.
  assert (A : forall (a b c : Q), (a <= b)%Q -> (0 <= c)%Q ->
                                  int_of_float (a * c) <= int_of_float (b * c)).
  { intros a b c Hab Hc. apply int_of_float_mono. now apply Qmult_le_compat_r. }
  assert (L : forall (a c : Q), (0 <= a)%Q -> (0 <= c)%Q -> 0 <= int_of_float (a * c)).
  { intros a c Ha Hc. rewrite <- (int_of_float_integer 0).
    apply int_of_float_mono. change (inject_Z 0) with 0%Q. now apply Qmult_le_0_compat. }
  assert (U : forall (a : Q) (z : Z), (a <= 1)%Q -> (0 <= inject_Z z)%Q ->
                                      int_of_float (a * inject_Z z) <= z).
  { intros a z Ha Hz. rewrite <- (int_of_float_integer z) at 2.
    apply int_of_float_mono. rewrite <- (Qmult_1_l (inject_Z z)) at 2.
    now apply Qmult_le_compat_r. }
  repeat split.
  - now apply L.
  - apply A; [lra | exact Qw].
  - now apply U.
  - now apply L.
  - apply A; [lra | exact Qh].
  - now apply U.
Qed.

Section LabelProperties.

Variable F : Type.
Variable float : string -> option F.
Variable int : string -> option Z.
Variable corners : Z -> Z -> F -> F -> F -> F -> option Box.

Lemma label_loop_acc (img_w img_h : Z) (lines : list (list string)) :
  forall boxes : list Box,
    label_loop float corners img_w img_h lines boxes =
    option_map (app boxes) (label_loop float corners img_w img_h lines []).
Proof.
  induction lines as [|parts rest IH]; intro boxes; simpl.
  - now rewrite app_nil_r.
  - destruct (List.length parts <? 5)%nat; [apply IH|].
    destruct (float (field parts 1)) as [xc|]; [|reflexivity].
    destruct (float (field parts 2)) as [yc|]; [|reflexivity].
    destruct (float (field parts 3)) as [w|]; [|reflexivity].
    destruct (float (field parts 4)) as [h|]; [|reflexivity].
    destruct (corners img_w img_h xc yc w h) as [box|]; [|reflexivity].
    rewrite IH. rewrite (IH [_]).
    destruct (label_loop float corners img_w img_h rest []); simpl; [|reflexivity].
    now rewrite <- app_assoc.
Qed.

(** One turn of the loop, by what the line contributes. *)
Lemma label_loop_cons (img_w img_h : Z) (parts : list string)
      (rest : list (list string)) :
  label_loop float corners img_w img_h (parts :: rest) [] =
  if (List.length parts <? 5)%nat then label_loop float corners img_w img_h rest []
  else match label_of float corners img_w img_h parts with
       | Some box => option_map (cons box) (label_loop float corners img_w img_h rest [])
       | None => None
       end.
Proof.
  cbn [label_loop]. unfold label_of.
  destruct (List.length parts <? 5)%nat; [reflexivity|].
  destruct (float (field parts 1)) as [xc|]; [|reflexivity].
  destruct (float (field parts 2)) as [yc|]; [|reflexivity].
  destruct (float (field parts 3)) as [w|]; [|reflexivity].
  destruct (float (field parts 4)) as [h|]; [|reflexivity].
  destruct (corners img_w img_h xc yc w h) as [box|]; [|reflexivity].
  cbn [app]. apply label_loop_acc.
Qed.

Lemma label_of_none (img_w img_h : Z) (parts : list string) :
  label_of float corners img_w img_h parts = None <->
  (float (field parts 1) = None \/ float (field parts 2) = None \/
   float (field parts 3) = None \/ float (field parts 4) = None \/
   exists xc yc w h,
     float (field parts 1) = Some xc /\ float (field parts 2) = Some yc /\
     float (field parts 3) = Some w /\ float (field parts 4) = Some h /\
     corners img_w img_h xc yc w h = None).
Proof.
  unfold label_of.
  destruct (float (field parts 1)) as [xc|]; [|split; auto].
  destruct (float (field parts 2)) as [yc|]; [|split; auto].
  destruct (float (field parts 3)) as [w|]; [|split; auto].
  destruct (float (field parts 4)) as [h|]; [|split; auto 6].
  split.
  - intro H. do 4 right. now exists xc, yc, w, h.
  - intros [H|[H|[H|[H|(xc' & yc' & w' & h' & E1 & E2 & E3 & E4 & H)]]]];
      try discriminate.
    injection E1 as <-. injection E2 as <-. injection E3 as <-. injection E4 as <-.
    exact H.
Qed.

Lemma label_of_some (img_w img_h : Z) (parts : list string) (box : Box) :
  label_of float corners img_w img_h parts = Some box ->
  exists xc yc w h,
    float (field parts 1) = Some xc /\ float (field parts 2) = Some yc /\
    float (field parts 3) = Some w /\ float (field parts 4) = Some h /\
    corners img_w img_h xc yc w h = Some box.
Proof.
  unfold label_of.
  destruct (float (field parts 1)) as [xc|]; [|discriminate].
  destruct (float (field parts 2)) as [yc|]; [|discriminate].
  destruct (float (field parts 3)) as [w|]; [|discriminate].
  destruct (float (field parts 4)) as [h|]; [|discriminate].
  intro H. now exists xc, yc, w, h.
Qed.

(** X13. [get_blocking_boxes]: a missing file gives no boxes; lines of fewer
    than five fields are ignored wherever they stand; the call raises
    exactly when some line of five or more fields has a non-numeric field
    among the four it reads or makes the corner computation raise; and
    otherwise there is one box per such line, in file order, the corners of
    that line's four numbers. *)
Theorem blocking_boxes_lines (lines : list (list string)) (img_w img_h : Z) :
  get_blocking_boxes float corners None img_w img_h = Some [] /\
  get_blocking_boxes float corners (Some lines) img_w img_h =
  get_blocking_boxes float corners
                     (Some (filter (fun parts => negb (List.length parts <? 5)%nat) lines))
                     img_w img_h /\
  (get_blocking_boxes float corners (Some lines) img_w img_h = None <->
   exists parts,
     In parts lines /\ (5 <= List.length parts)%nat /\
     (float (field parts 1) = None \/ float (field parts 2) = None \/
      float (field parts 3) = None \/ float (field parts 4) = None \/
      exists xc yc w h,
        float (field parts 1) = Some xc /\ float (field parts 2) = Some yc /\
        float (field parts 3) = Some w /\ float (field parts 4) = Some h /\
        corners img_w img_h xc yc w h = None)) /\
  (forall boxes,
      get_blocking_boxes float corners (Some lines) img_w img_h = Some boxes ->
      List.length boxes =
      List.length (filter (fun parts => negb (List.length parts <? 5)%nat) lines) /\
      forall (k : nat) (box : Box),
        nth_error boxes k = Some box ->
        exists parts xc yc w h,
          nth_error (filter (fun parts => negb (List.length parts <? 5)%nat) lines) k =
          Some parts /\
          float (field parts 1) = Some xc /\ float (field parts 2) = Some yc /\
          float (field parts 3) = Some w /\ float (field parts 4) = Some h /\
          corners img_w img_h xc yc w h = Some box).
Proof.
  unfold get_blocking_boxes. split; [reflexivity|]. split; [|split].
  - induction lines as [|parts rest IH]; [reflexivity|].
    rewrite label_loop_cons. cbn [filter].
    destruct (List.length parts <? 5)%nat eqn:E; cbn [negb]; [exact IH|].
    rewrite label_loop_cons, E, IH. reflexivity.
  - induction lines as [|parts rest IH].
    + split; [discriminate | intros (parts & [] & _)].
    + rewrite label_loop_cons.
      destruct (List.length parts <? 5)%nat eqn:E.
      * rewrite IH. apply Nat.ltb_lt in E. split.
        -- intros (pp & Hin & Hq). exists pp. split; [now right | exact Hq].
        -- intros (pp & [->|Hin] & L & Hq); [lia|]. now exists pp.
      * apply Nat.ltb_ge in E.
        destruct (label_of float corners img_w img_h parts) as [box|] eqn:El.
        -- destruct (label_loop float corners img_w img_h rest []) as [bs|] eqn:Er;
             cbn [option_map].
           ++ split; [discriminate|].
              intros (pp & [<-|Hin] & L & Hq).
              ** apply label_of_none in Hq. congruence.
              ** assert (C : Some bs = None) by (apply IH; now exists pp).
                 discriminate C.
           ++ split; [|reflexivity]. intros _.
              destruct (proj1 IH eq_refl) as (pp & Hin & Hq).
              exists pp. split; [now right | exact Hq].
        -- split; [|reflexivity]. intros _. exists parts.
           split; [now left|]. split; [exact E|]. now apply label_of_none.
  - induction lines as [|parts rest IH]; intros boxes.
    + intro H. injection H as <-. split; [reflexivity|]. intros [|k] box; discriminate.
    + rewrite label_loop_cons. cbn [filter].
      destruct (List.length parts <? 5)%nat; cbn [negb]; [apply IH|].
      destruct (label_of float corners img_w img_h parts) as [box|] eqn:El;
        [|discriminate].
      destruct (label_loop float corners img_w img_h rest []) as [bs|]; [|discriminate].
      cbn [option_map]. intro H. injection H as <-.
      destruct (IH bs eq_refl) as (L & N). split; [cbn [List.length]; now rewrite L|].
      intros [|k] bx; cbn [nth_error].
      * intro H. injection H as <-.
        destruct (label_of_some img_w img_h parts box El) as (xc & yc & w & h & Hq).
        now exists parts, xc, yc, w, h.
      * apply N.
Qed.

Lemma mask_loop_acc (lines : list (list string)) :
  forall boxes : list Box,
    mask_loop int lines boxes = option_map (app boxes) (mask_loop int lines []).
Proof.
  induction lines as [|parts rest IH]; intro boxes; simpl.
  - now rewrite app_nil_r.
  - destruct (List.length parts =? 4)%nat; [|apply IH].
    destruct (int (field parts 0)); [|reflexivity].
    destruct (int (field parts 1)); [|reflexivity].
    destruct (int (field parts 2)); [|reflexivity].
    destruct (int (field parts 3)); [|reflexivity].
    rewrite IH. rewrite (IH [_]).
    destruct (mask_loop int rest []); simpl; [|reflexivity].
    now rewrite <- app_assoc.
Qed.

(** X14. [read_mask_file]: a missing file gives no boxes; only lines of
    exactly four fields count, any other line is ignored wherever it stands;
    the call fails exactly when a four-field line has a field that is not an
    integer; and otherwise it returns as many boxes as there are four-field
    lines, the k-th box made of the four numbers of the k-th such line. *)
Theorem mask_file_lines (lines : list (list string)) :
  read_mask_file int None = Some [] /\
  read_mask_file int (Some lines) =
  read_mask_file int (Some (filter (fun parts => (List.length parts =? 4)%nat) lines)) /\
  (read_mask_file int (Some lines) = None <->
   exists parts,
     In parts lines /\ List.length parts = 4%nat /\
     (int (field parts 0) = None \/ int (field parts 1) = None \/
      int (field parts 2) = None \/ int (field parts 3) = None)) /\
  (forall boxes (k : nat) (x1 y1 x2 y2 : Z),
      read_mask_file int (Some lines) = Some boxes ->
      nth_error boxes k = Some (x1, y1, x2, y2) ->
      exists parts,
        nth_error (filter (fun parts => (List.length parts =? 4)%nat) lines) k = Some parts /\
        int (field parts 0) = Some x1 /\ int (field parts 1) = Some y1 /\
        int (field parts 2) = Some x2 /\ int (field parts 3) = Some y2) /\
  (forall boxes,
      read_mask_file int (Some lines) = Some boxes ->
      List.length boxes =
      List.length (filter (fun parts => (List.length parts =? 4)%nat) lines)) /\
  (forall boxes (k : nat) (parts : list string),
      read_mask_file int (Some lines) = Some boxes ->
      nth_error (filter (fun parts => (List.length parts =? 4)%nat) lines) k = Some parts ->
      exists x1 y1 x2 y2,
        nth_error boxes k = Some (x1, y1, x2, y2) /\
        int (field parts 0) = Some x1 /\ int (field parts 1) = Some y1 /\
        int (field parts 2) = Some x2 /\ int (field parts 3) = Some y2).
Proof.
  unfold read_mask_file. split; [reflexivity|]. split; [|split; [|split; [|split]]].
  - induction lines as [|parts rest IH]; simpl; [reflexivity|].
    destruct (List.length parts =? 4)%nat eqn:E; simpl; [|exact IH].
    rewrite E.
    destruct (int (field parts 0)); [|reflexivity].
    destruct (int (field parts 1)); [|reflexivity].
    destruct (int (field parts 2)); [|reflexivity].
    destruct (int (field parts 3)); [|reflexivity].
    rewrite mask_loop_acc, IH. symmetry. apply mask_loop_acc.
  - induction lines as [|parts rest IH]; simpl.
    + split; [discriminate | intros (parts & [] & _)].
    + destruct (List.length parts =? 4)%nat eqn:E.
      * apply Nat.eqb_eq in E.
        destruct (int (field parts 0)) eqn:E0;
          [|split; [intros _; exists parts; repeat split; auto | reflexivity]].
        destruct (int (field parts 1)) eqn:E1;
          [|split; [intros _; exists parts; repeat split; auto | reflexivity]].
        destruct (int (field parts 2)) eqn:E2;
          [|split; [intros _; exists parts; repeat split; auto | reflexivity]].
        destruct (int (field parts 3)) eqn:E3;
          [|split; [intros _; exists parts; repeat split; auto 6 | reflexivity]].
        rewrite mask_loop_acc.
        destruct (mask_loop int rest []) as [bs|] eqn:Er; simpl.
        -- split; [discriminate|].
           intros (pp & [<-|Hin] & L & Hq).
           ++ rewrite E0, E1, E2, E3 in Hq. now destruct Hq as [|[|[|]]].
           ++ assert (C : Some bs = None) by (apply IH; now exists pp).
              discriminate C.
        -- split; [|reflexivity]. intros _.
           destruct (proj1 IH eq_refl) as (pp & Hin & Hq).
           exists pp. split; [now right | exact Hq].
      * rewrite IH. apply Nat.eqb_neq in E. split.
        -- intros (pp & Hin & Hq). exists pp. split; [now right | exact Hq].
        -- intros (pp & [->|Hin] & L & Hq); [lia|]. now exists pp.
  - induction lines as [|parts rest IH]; intros boxes k x1 y1 x2 y2; simpl.
    + intro H. injection H as <-. now destruct k.
    + destruct (List.length parts =? 4)%nat; simpl; [|apply IH].
      destruct (int (field parts 0)) as [a|] eqn:E0; [|discriminate].
      destruct (int (field parts 1)) as [b|] eqn:E1; [|discriminate].
      destruct (int (field parts 2)) as [c|] eqn:E2; [|discriminate].
      destruct (int (field parts 3)) as [d|] eqn:E3; [|discriminate].
      rewrite mask_loop_acc.
      destruct (mask_loop int rest []) as [bs|]; [|discriminate].
      simpl. intro H. injection H as <-. destruct k as [|k]; simpl.
      * intro H. injection H as <- <- <- <-. now exists parts.
      * now apply IH.
  - induction lines as [|parts rest IH]; intros boxes; simpl.
    + intro H. now injection H as <-.
    + destruct (List.length parts =? 4)%nat; simpl; [|apply IH].
      destruct (int (field parts 0)) as [a|]; [|discriminate].
      destruct (int (field parts 1)) as [b|]; [|discriminate].
      destruct (int (field parts 2)) as [c|]; [|discriminate].
      destruct (int (field parts 3)) as [d|]; [|discriminate].
      rewrite mask_loop_acc.
      destruct (mask_loop int rest []) as [bs|]; [|discriminate].
      simpl. intro H. injection H as <-. simpl. f_equal. now apply IH.
  - induction lines as [|parts rest IH]; intros boxes k pp; simpl.
    + intros _ H. now destruct k.
    + destruct (List.length parts =? 4)%nat; simpl; [|apply IH].
      destruct (int (field parts 0)) as [a|] eqn:E0; [|discriminate].
      destruct (int (field parts 1)) as [b|] eqn:E1; [|discriminate].
      destruct (int (field parts 2)) as [c|] eqn:E2; [|discriminate].
      destruct (int (field parts 3)) as [d|] eqn:E3; [|discriminate].
      rewrite mask_loop_acc.
      destruct (mask_loop int rest []) as [bs|]; [|discriminate].
      simpl. intro H. injection H as <-. destruct k as [|k]; simpl.
      * intro H. injection H as <-. now exists a, b, c, d.
      * now apply IH.
Qed.

End LabelProperties.

Section NormalisedLabels.

Variable float : string -> option Q.

(** X12. Blocking boxes of normalised labels lie in the image: when every
    label of the file has its box inside the unit square, each returned box
    has 0 <= x1 <= x2 <= img_w and 0 <= y1 <= y2 <= img_h (corners taken
    in exact arithmetic). *)
Theorem blocking_boxes_within_image (lines : list (list string)) (img_w img_h : Z)
        (boxes : list Box) :
  0 <= img_w ->
  0 <= img_h ->
  (forall parts xc yc w h,
      In parts lines ->
      float (field parts 1) = Some xc -> float (field parts 2) = Some yc ->
      float (field parts 3) = Some w -> float (field parts 4) = Some h ->
      normalised xc yc w h) ->
  get_blocking_boxes float exact_corners (Some lines) img_w img_h = Some boxes ->
  Forall (within img_w img_h) boxes.
Proof.
  intros Hw Hh. unfold get_blocking_boxes. revert boxes.
  induction lines as [|parts rest IH]; intros boxes Hn.
  - intro H. injection H as <-. constructor.
  - rewrite label_loop_cons. destruct (List.length parts <? 5)%nat.
    + apply IH. intros. eapply Hn; eauto. now right.
    + unfold label_of.
      destruct (float (field parts 1)) as [xc|] eqn:E1; [|discriminate].
      destruct (float (field parts 2)) as [yc|] eqn:E2; [|discriminate].
      destruct (float (field parts 3)) as [w|] eqn:E3; [|discriminate].
      destruct (float (field parts 4)) as [h|] eqn:E4; [|discriminate].
      unfold exact_corners at 1.
      destruct (label_loop float exact_corners img_w img_h rest []) as [bs|] eqn:Er;
        [|discriminate].
      cbn [option_map]. intro H. injection H as <-. constructor.
      * apply label_box_within; try assumption.
        apply (Hn parts); try assumption. now left.
      * apply IH; [|reflexivity]. intros. eapply Hn; eauto. now right.
Qed.

End NormalisedLabels.

(** ** Base names of work items *)

Lemma string_append_assoc (a b c : string) :
  ((a ++ b) ++ c)%string = (a ++ (b ++ c))%string.
Proof.
  induction a as [|ch a IH]; simpl; [reflexivity | now rewrite IH].
Qed.

Lemma split_on_nonempty (sep : ascii) (s : string) : split_on sep s <> [].
Proof.
  destruct s as [|c s]; simpl; [discriminate|].
  destruct (Ascii.eqb c sep); [discriminate|].
  destruct (split_on sep s); discriminate.
Qed.

Lemma join_cons (sep x : string) (rest : list string) :
  rest <> [] -> join sep (x :: rest) = (x ++ sep ++ join sep rest)%string.
Proof.
  destruct rest as [|y rest]; [contradiction | reflexivity].
Qed.

Lemma join_split_on (sep : ascii) (s : string) :
  join (String sep EmptyString) (split_on sep s) = s.
Proof.
  induction s as [|c s IH]; [reflexivity|].
  pose proof (split_on_nonempty sep s) as N.
  simpl split_on. destruct (Ascii.eqb c sep) eqn:E.
  - apply Ascii.eqb_eq in E. subst c.
    rewrite join_cons by exact N. rewrite IH. reflexivity.
  - destruct (split_on sep s) as [|part parts]; [contradiction|].
    rewrite <- IH. destruct parts as [|q parts]; reflexivity.
Qed.

Lemma split_on_parts_clean (sep : ascii) (s : string) :
  Forall (fun part => ~ In sep (list_ascii_of_string part)) (split_on sep s).
Proof.
  induction s as [|c s IH]; simpl.
  - constructor; [intros [] | constructor].
  - destruct (Ascii.eqb c sep) eqn:E.
    + constructor; [intros [] | exact IH].
    + apply Ascii.eqb_neq in E.
      destruct (split_on sep s) as [|part parts].
      * constructor; [|constructor]. simpl. intros [H|[]]. now apply E.
      * inversion IH as [|? ? Hp Hps]; subst. constructor; [|exact Hps].
        simpl. intros [H|H]; [now apply E | now apply Hp].
Qed.

Lemma join_snoc (sep : string) (l : list string) (t : string) :
  l <> [] -> join sep (l ++ [t]) = (join sep l ++ sep ++ t)%string.
Proof.
  induction l as [|x l IH]; [contradiction|]. intros _.
  destruct l as [|y l].
  - reflexivity.
  - change ((x :: y :: l) ++ [t]) with (x :: ((y :: l) ++ [t])).
    rewrite join_cons by (destruct l; discriminate).
    rewrite IH by discriminate.
    rewrite (join_cons sep x (y :: l)) by discriminate.
    now rewrite !string_append_assoc.
Qed.

(** X15. A base name splits at its last underscore: when the item is
    accepted, the frame number is the integer value of a token without
    underscore, and the base name is that token alone (the video name then
    being empty) or the video name, an underscore and the token. *)
Theorem base_name_round_trip (int : string -> option Z) (base_name video_name : string)
        (frame_num : Z) :
  parse_base_name int base_name = Some (video_name, frame_num) ->
  exists token,
    int token = Some frame_num /\
    ~ In "_"%char (list_ascii_of_string token) /\
    ((video_name = EmptyString /\ base_name = token) \/
     base_name = (video_name ++ "_" ++ token)%string).
Proof.
  unfold parse_base_name.
  pose proof (split_on_nonempty "_" base_name) as N.
  pose proof (split_on_parts_clean "_" base_name) as C.
  pose proof (join_split_on "_" base_name) as J.
  set (parts := split_on "_" base_name) in *.
  destruct (int (last parts EmptyString)) as [n|] eqn:E; [|discriminate].
  intro H. injection H as <- <-.
  exists (last parts EmptyString). split; [exact E|].
  pose proof (app_removelast_last EmptyString N) as A.
  split.
  - rewrite Forall_forall in C. apply C. rewrite A at 2.
    apply in_or_app. right. now left.
  - rewrite A in J.
    destruct (removelast parts) as [|x l] eqn:R.
    + left. split; [reflexivity|]. simpl in J. now symmetry.
    + right. rewrite join_snoc in J by discriminate. now symmetry.
Qed.

(** ** config_watcher: comparing settings *)

Section WatcherProperties.

Variable F : Type.
Variable far : F -> F -> bool.
Variable float_of_int : Z -> option F.
Variable float_of_str : string -> option F.
Variable text : value F -> string.

Lemma lists_differ_refl (l : list F) :
  (forall x, far x x = false) -> lists_differ F far l l = false.
Proof.
  intro R. induction l as [|x l IH]; simpl; [reflexivity|]. now rewrite R.
Qed.

Lemma values_differ_refl (v : value F) :
  (forall x, far x x = false) ->
  values_differ F far float_of_int float_of_str text v v = false.
Proof.
  intro R. unfold values_differ.
  assert (S : match to_float F float_of_int float_of_str v with
              | Some fa =>
                match to_float F float_of_int float_of_str v with
                | Some fb => far fa fb
                | None => negb (text v =? text v)%string
                end
              | None => negb (text v =? text v)%string
              end = false).
  { destruct (to_float F float_of_int float_of_str v); [apply R|].
    now rewrite String.eqb_refl. }
  destruct v; try exact S.
  rewrite Nat.eqb_refl. simpl. now apply lists_differ_refl.
Qed.

Lemma lists_differ_sym (la : list F) :
  (forall x y, far x y = far y x) ->
  forall lb, lists_differ F far la lb = lists_differ F far lb la.
Proof.
  intro S. induction la as [|x la IH]; intros [|y lb]; simpl; try reflexivity.
  rewrite (S x y), IH. reflexivity.
Qed.

Lemma values_differ_sym (va vb : value F) :
  (forall x y, far x y = far y x) ->
  values_differ F far float_of_int float_of_str text va vb =
  values_differ F far float_of_int float_of_str text vb va.
Proof.
  intro S. unfold values_differ.
  assert (E : match to_float F float_of_int float_of_str va with
              | Some fa =>
                match to_float F float_of_int float_of_str vb with
                | Some fb => far fa fb
                | None => negb (text va =? text vb)%string
                end
              | None => negb (text va =? text vb)%string
              end =
              match to_float F float_of_int float_of_str vb with
              | Some fa =>
                match to_float F float_of_int float_of_str va with
                | Some fb => far fa fb
                | None => negb (text vb =? text va)%string
                end
              | None => negb (text vb =? text va)%string
              end).
  { rewrite (String.eqb_sym (text va) (text vb)).
    destruct (to_float F float_of_int float_of_str va),
             (to_float F float_of_int float_of_str vb); try reflexivity.
    apply S. }
  destruct va, vb; try exact E.
  rewrite (Nat.eqb_sym (List.length l) (List.length l0)).
  destruct (List.length l0 =? List.length l)%nat; simpl; [|reflexivity].
  now apply lists_differ_sym.
Qed.

Lemma settings_loop_missing (keys : list string) (a b : dict F) (k : string) :
  In k keys ->
  a k = None \/ b k = None ->
  settings_loop F far float_of_int float_of_str text keys a b = true.
Proof.
  intros Hin Hk. induction keys as [|k0 rest IH]; [destruct Hin|]. simpl.
  destruct (a k0) as [va|] eqn:Ea; [|reflexivity].
  destruct (b k0) as [vb|] eqn:Eb; [|reflexivity].
  destruct (values_differ F far float_of_int float_of_str text va vb); [reflexivity|].
  destruct Hin as [->|Hin]; [|now apply IH].
  destruct Hk; congruence.
Qed.

Lemma settings_loop_refl (keys : list string) (a : dict F) :
  (forall x, far x x = false) ->
  (forall k, In k keys -> a k <> None) ->
  settings_loop F far float_of_int float_of_str text keys a a = false.
Proof.
  intros R. induction keys as [|k rest IH]; intro Hall; simpl; [reflexivity|].
  destruct (a k) as [v|] eqn:E; [|exfalso; apply (Hall k); [now left | exact E]].
  rewrite values_differ_refl by exact R. apply IH. intros k' Hin. apply Hall. now right.
Qed.

(** X16. A dictionary is not different from itself exactly when it holds
    every relevant key: an unchanged configuration never reports a change,
    and a dictionary lacking a key is reported as changed even against
    itself. *)
Theorem settings_different_self (a : dict F) :
  (forall x, far x x = false) ->
  (settings_different F far float_of_int float_of_str text a a = false <->
   forall k, In k RELEVANT_KEYS -> a k <> None).
Proof.
  intro R. unfold settings_different. split.
  - intros H k Hin E.
    rewrite (settings_loop_missing RELEVANT_KEYS a a k Hin (or_introl E)) in H.
    discriminate.
  - now apply settings_loop_refl.
Qed.

(** X17. The comparison does not depend on which side is the snapshot. *)
Theorem settings_different_sym (a b : dict F) :
  (forall x y, far x y = far y x) ->
  settings_different F far float_of_int float_of_str text a b =
  settings_different F far float_of_int float_of_str text b a.
Proof.
  intro S. unfold settings_different.
  induction RELEVANT_KEYS as [|k rest IH]; simpl; [reflexivity|].
  destruct (a k) as [va|], (b k) as [vb|]; try reflexivity.
  rewrite (values_differ_sym va vb S), IH. reflexivity.
Qed.

(** X18. A relevant key missing on either side always counts as a change,
    whatever the other keys hold; nothing is raised. *)
Theorem missing_key_is_a_change (a b : dict F) (k : string) :
  In k RELEVANT_KEYS ->
  a k = None \/ b k = None ->
  settings_different F far float_of_int float_of_str text a b = true.
Proof. apply settings_loop_missing. Qed.

Variable int_of_str : string -> option Z.
Variable normalise : string -> string.
Variable strip : string -> string.

(** X19. Settings read from a file hold every relevant key, so a snapshot
    that is a copy of the configuration is never reported as changed. *)
Theorem snapshot_copy_unchanged (sec : string -> option string) (d : dict F) :
  (forall x, far x x = false) ->
  read_motion_settings F float_of_str int_of_str normalise strip sec = Some d ->
  (forall k, In k RELEVANT_KEYS -> d k <> None) /\
  settings_different F far float_of_int float_of_str text d d = false.
Proof.
  intros R H.
  assert (K : forall k, In k RELEVANT_KEYS -> d k <> None).
  { unfold read_motion_settings in H.
    destruct (int_of_str _); [|discriminate].
    destruct (int_of_str _); [|discriminate].
    destruct (float_of_str _); [|discriminate].
    destruct (float_of_str _); [|discriminate].
    destruct (float_of_str _); [|discriminate].
    destruct (parse_rgb_multipliers _ _ _ _); [|discriminate].
    injection H as <-.
    intros k Hin. unfold RELEVANT_KEYS in Hin. simpl in Hin.
    repeat (destruct Hin as [<-|Hin]; [vm_compute; discriminate|]).
    destruct Hin. }
  split; [exact K|]. unfold settings_different. now apply settings_loop_refl.
Qed.

End WatcherProperties.

(** ** The further properties at work *)

Lemma far_Q_refl (x : Q) : far_Q x x = false.
Proof.
  unfold far_Q. apply Qgt_bool_le.
  assert (E : (x - x == 0)%Q) by ring.
  rewrite E. discriminate.
Qed.

Lemma far_Q_sym (x y : Q) : far_Q x y = far_Q y x.
Proof.
  unfold far_Q.
  assert (E : (Qabs (x - y) == Qabs (y - x))%Q).
  { rewrite <- (Qabs_opp (y - x)). apply Qabs_wd. ring. }
  destruct (Qgt_bool (Qabs (y - x)) (1 # 1000000)) eqn:B.
  - apply Qgt_bool_lt. apply Qgt_bool_lt in B. now rewrite E.
  - apply Qgt_bool_le. apply Qgt_bool_le in B. now rewrite E.
Qed.

Lemma latest_diff_is_frame_difference_witness :
  exists e d1 d2,
    process_frames example_gray cv2.blend sequential_params init_engine
                   ([solid 10; solid 20] ++ [solid 40; solid 90]) = Return e /\
    diffs e = Some (cv2.absdiff (example_gray (solid 40)) (example_gray (solid 90)), d1, d2).
Proof.
  exact (latest_diff_is_frame_difference example_gray cv2.blend sequential_params
           [solid 10; solid 20] (solid 40) (solid 90) (or_intror eq_refl)).
Defined.

Lemma unknown_strategy_freezes_references_witness :
  exists e,
    process_frames example_gray cv2.blend (make_params "Sequential" "false" 0 4 [1%Q; 2%Q; 3%Q])
                   init_engine (solid 10 :: [solid 20; solid 40] ++ [solid 90]) = Return e /\
    prev_frames e = (Some (example_gray (solid 10)), Some (example_gray (solid 10)),
                     Some (example_gray (solid 10))) /\
    diffs e = Some (cv2.absdiff (example_gray (solid 10)) (example_gray (solid 90)),
                    cv2.absdiff (example_gray (solid 10)) (example_gray (solid 90)),
                    cv2.absdiff (example_gray (solid 10)) (example_gray (solid 90))).
Proof.
  exact (unknown_strategy_freezes_references example_gray cv2.blend
           (make_params "Sequential" "false" 0 4 [1%Q; 2%Q; 3%Q])
           (solid 10) [solid 20; solid 40] (solid 90)
           ltac:(discriminate) ltac:(discriminate)).
Defined.

Lemma result_all_or_nothing_witness :
  (Some (solid 90) = None /\ Some (repeat (255, 218, 138) 16) = None) \/
  (exists st m, Some (solid 90) = Some st /\ Some (repeat (255, 218, 138) 16) = Some m).
Proof.
  exact (result_all_or_nothing no_resize example_gray cv2.blend example_video 5 sequential_params
                               (Some (solid 90)) (Some (repeat (255, 218, 138) 16))
                               ltac:(vm_compute; reflexivity)).
Defined.

Lemma present_iff_two_frames_witness :
  exists s,
    read_window no_resize ramp_video 9
                (make_params "exponential" "false" 0 15 [1%Q; 2%Q; 3%Q]) = Return s /\
    ((exists st m,
         generate_base_images no_resize example_gray cv2.blend ramp_video 9
                              (make_params "exponential" "false" 0 15 [1%Q; 2%Q; 3%Q]) =
         Return (Some st, Some m)) <->
     (2 <= List.length (collected s))%nat).
Proof.
  eexists. split; [vm_compute; reflexivity|].
  apply present_iff_two_frames.
  - reflexivity.
  - reflexivity.
  - vm_compute; discriminate.
  - vm_compute. apply le_n.
  - vm_compute; reflexivity.
Defined.

Lemma short_multipliers_raise_witness :
  generate_base_images no_resize example_gray cv2.blend example_video 5
                       (make_params "sequential" "false" 0 4 [1%Q; 2%Q]) =
  Raise IndexError.
Proof.
  eapply short_multipliers_raise.
  - reflexivity.
  - reflexivity.
  - vm_compute; discriminate.
  - vm_compute. apply le_n.
  - vm_compute; reflexivity.
  - vm_compute. apply le_S, le_S, le_n.
Defined.

Lemma zero_stride_raises_witness :
  generate_base_images no_resize example_gray cv2.blend example_video 5
                       (make_params "sequential" "false" (-1) 4 [1%Q; 2%Q; 3%Q]) =
  Raise ZeroDivisionError.
Proof.
  apply zero_stride_raises.
  - reflexivity.
  - reflexivity.
  - reflexivity.
  - vm_compute; discriminate.
  - vm_compute; discriminate.
  - vm_compute. apply le_S, le_S, le_S, le_S, le_n.
Defined.

Lemma still_scene_has_no_signal_witness :
  exists m0 m1 m2,
    nth_error (rgb_multipliers (dyadic_params "exponential" "true" 5)) 0 = Some m0 /\
    nth_error (rgb_multipliers (dyadic_params "exponential" "true" 5)) 1 = Some m1 /\
    nth_error (rgb_multipliers (dyadic_params "exponential" "true" 5)) 2 = Some m2 /\
    List.length (repeat (45, 45, 45) 16) = List.length (example_gray (solid 100)) /\
    forall i : nat,
      nth_error (repeat (45, 45, 45) 16) i =
      match nth_error (example_gray (solid 100)) i with
      | Some luminance =>
        let bias := inject_Z (motion_threshold (dyadic_params "exponential" "true" 5)) in
        Some (cv2.blend (lum_weight (dyadic_params "exponential" "true" 5)) m2 bias luminance 0,
              cv2.blend (lum_weight (dyadic_params "exponential" "true" 5)) m1 bias luminance 0,
              cv2.blend (lum_weight (dyadic_params "exponential" "true" 5)) m0 bias luminance 0)
      | None => None
      end.
Proof.
  apply (still_scene_has_no_signal
           no_resize example_gray cv2.blend still_video 5
           (dyadic_params "exponential" "true" 5)
           {| collected := repeat (solid 100) 5; read_count := 5; idx := 6;
              decode_attempts := 5 |}
           (example_gray (solid 100)) (solid 100) (repeat (45, 45, 45) 16)).
  - vm_compute; reflexivity.
  - simpl. intros f [<-|[<-|[<-|[<-|[<-|[]]]]]]; reflexivity.
  - vm_compute; repeat constructor; discriminate.
  - intros _. split; apply blend_keeps_equal_pixels.
  - vm_compute; reflexivity.
Defined.

Lemma direct_mode_channels_witness :
  exists s e diff0 diff1 diff2 lum m0 m1 m2,
    read_window no_resize ramp_video 9 (dyadic_params "sequential" "false" 4) = Return s /\
    process_frames example_gray cv2.blend (dyadic_params "sequential" "false" 4)
                   init_engine (collected s) = Return e /\
    diffs e = Some (diff0, diff1, diff2) /\
    gray e = Some lum /\
    lum = example_gray (solid 100) /\
    nth_error (rgb_multipliers (dyadic_params "sequential" "false" 4)) 0 = Some m0 /\
    nth_error (rgb_multipliers (dyadic_params "sequential" "false" 4)) 1 = Some m1 /\
    nth_error (rgb_multipliers (dyadic_params "sequential" "false" 4)) 2 = Some m2 /\
    (forall n : nat,
        (forall f, In f (collected s) -> List.length (example_gray f) = n) ->
        List.length (repeat (65, 105, 75) 16) = n) /\
    forall i : nat,
      nth_error (repeat (65, 105, 75) 16) i =
      match nth_error lum i, nth_error diff0 i, nth_error diff1 i, nth_error diff2 i with
      | Some luminance, Some x0, Some x1, Some x2 =>
        let lumWeight := lum_weight (dyadic_params "sequential" "false" 4) in
        let motionBias :=
            inject_Z (- get (cfg_motion_threshold (dyadic_config "sequential" "false")) 0) in
        Some (cv2.blend lumWeight m2 motionBias luminance x0,
              cv2.blend lumWeight m1 motionBias luminance x1,
              cv2.blend lumWeight m0 motionBias luminance x2)
      | _, _, _, _ => None
      end.
Proof.
  apply (direct_mode_channels
           no_resize example_gray cv2.blend
           (dyadic_config "sequential" "false")
           (dyadic_params "sequential" "false" 4) ramp_video 9
           (solid 100) (repeat (65, 105, 75) 16)).
  - reflexivity.
  - discriminate.
  - vm_compute; reflexivity.
Defined.

Lemma chromatic_tail_channels_witness :
  exists s e diff0 diff1 diff2 lum m0 m1 m2,
    read_window no_resize ramp_video 9 (dyadic_params "sequential" "true" 4) = Return s /\
    process_frames example_gray cv2.blend (dyadic_params "sequential" "true" 4)
                   init_engine (collected s) = Return e /\
    diffs e = Some (diff0, diff1, diff2) /\
    gray e = Some lum /\
    lum = example_gray (solid 100) /\
    nth_error (rgb_multipliers (dyadic_params "sequential" "true" 4)) 0 = Some m0 /\
    nth_error (rgb_multipliers (dyadic_params "sequential" "true" 4)) 1 = Some m1 /\
    nth_error (rgb_multipliers (dyadic_params "sequential" "true" 4)) 2 = Some m2 /\
    (forall n : nat,
        (forall f, In f (collected s) -> List.length (example_gray f) = n) ->
        List.length (repeat (45, 75, 55) 16) = n) /\
    (forall (i : nat) (luminance x0 x1 x2 : Z),
      nth_error lum i = Some luminance ->
      nth_error diff0 i = Some x0 ->
      nth_error diff1 i = Some x1 ->
      nth_error diff2 i = Some x2 ->
      exists tailBlue tailGreen tailRed,
        tailBlue = cv2.saturate_u8 (x0 - x1) /\
        tailRed = cv2.saturate_u8 (x2 - x1) /\
        tailGreen = cv2.saturate_u8 (x1 - x0) /\
        cv2.is_u8 tailBlue /\ cv2.is_u8 tailRed /\ cv2.is_u8 tailGreen /\
        (x0 - x1 < 0 -> tailBlue = 0) /\
        (x2 - x1 < 0 -> tailRed = 0) /\
        (x1 - x0 < 0 -> tailGreen = 0) /\
        (cv2.is_u8 (x0 - x1) -> tailBlue = x0 - x1) /\
        (cv2.is_u8 (x2 - x1) -> tailRed = x2 - x1) /\
        (cv2.is_u8 (x1 - x0) -> tailGreen = x1 - x0) /\
        let lumWeight := lum_weight (dyadic_params "sequential" "true" 4) in
        let motionBias := inject_Z (motion_threshold (dyadic_params "sequential" "true" 4)) in
        nth_error (repeat (45, 75, 55) 16) i =
        Some (cv2.blend lumWeight m2 motionBias luminance tailBlue,
              cv2.blend lumWeight m1 motionBias luminance tailGreen,
              cv2.blend lumWeight m0 motionBias luminance tailRed)) /\
    (forall i : nat,
        nth_error (repeat (45, 75, 55) 16) i <> None ->
        nth_error lum i <> None /\ nth_error diff0 i <> None /\
        nth_error diff1 i <> None /\ nth_error diff2 i <> None).
Proof.
  apply (chromatic_tail_channels
           no_resize example_gray cv2.blend
           (dyadic_params "sequential" "true" 4) ramp_video 9
           (solid 100) (repeat (45, 75, 55) 16)).
  - reflexivity.
  - vm_compute; reflexivity.
Defined.

(** On that window the last differences are 10, 20 and 30 at every pixel:
    the blue tail 10 - 20 is clamped to 0, the red and green tails are 10. *)
Example chromatic_tails_example :
  exists e,
    process_frames example_gray cv2.blend (dyadic_params "sequential" "true" 4)
                   init_engine (map solid [70; 80; 90; 100]) = Return e /\
    diffs e = Some (repeat 10 16, repeat 20 16, repeat 30 16) /\
    cv2.subtract (repeat 10 16) (repeat 20 16) = repeat 0 16 /\
    cv2.subtract (repeat 30 16) (repeat 20 16) = repeat 10 16 /\
    cv2.subtract (repeat 20 16) (repeat 10 16) = repeat 10 16.
Proof. eexists. repeat split. Qed.

Lemma collected_frame_indices_witness :
  exists s,
    read_window no_resize ramp_video 9 sequential_params = Return s /\
    nth_error (collected s) 2 = Some (solid 90).
Proof.
  exact (collected_frame_indices no_resize ramp_video 9 sequential_params 2
                                 ltac:(vm_compute; discriminate) eq_refl).
Defined.

Lemma static_image_is_window_end_witness :
  (exists frame motion,
      nth_error (decodable ramp_video) 9 = Some frame /\
      generate_base_images no_resize example_gray cv2.blend ramp_video 9 sequential_params =
      Return (Some (scaled no_resize sequential_params frame), Some motion)) /\
  (exists frame motion,
      nth_error (decodable ramp_video) 3 = Some frame /\
      generate_base_images no_resize example_gray cv2.blend ramp_video 1 sequential_params =
      Return (Some (scaled no_resize sequential_params frame), Some motion)).
Proof.
  split.
  - destruct (static_image_is_window_end no_resize example_gray cv2.blend ramp_video 9
                                         sequential_params)
      as (frame & motion & H1 & H2 & _).
    + reflexivity.
    + vm_compute; discriminate.
    + vm_compute; discriminate.
    + reflexivity.
    + vm_compute. apply le_n.
    + split; vm_compute; [discriminate | reflexivity].
    + vm_compute; discriminate.
    + vm_compute; discriminate.
    + exists frame, motion. split; [exact H1 | exact H2].
  - destruct (static_image_is_window_end no_resize example_gray cv2.blend ramp_video 1
                                         sequential_params)
      as (frame & motion & H1 & H2 & _).
    + reflexivity.
    + vm_compute; discriminate.
    + vm_compute; discriminate.
    + reflexivity.
    + vm_compute. apply le_n.
    + split; vm_compute; [discriminate | reflexivity].
    + vm_compute; discriminate.
    + vm_compute; discriminate.
    + exists frame, motion. split; [exact H1 | exact H2].
Defined.

Lemma blocking_boxes_within_image_witness :
  Forall (within 640 480) [(160, 180, 480, 300); (0, 324, 320, 444)].
Proof.
  apply (blocking_boxes_within_image example_float example_labels 640 480).
  - vm_compute; discriminate.
  - vm_compute; discriminate.
  - intros parts xc yc w h [<-|[<-|[<-|[]]]] E1 E2 E3 E4;
      vm_compute in E1, E2, E3, E4; try discriminate;
      injection E1 as <-; injection E2 as <-; injection E3 as <-; injection E4 as <-;
      unfold normalised; repeat split; vm_compute; discriminate.
  - vm_compute; reflexivity.
Defined.

Lemma blocking_boxes_lines_witness :
  List.length [(160, 180, 480, 300); (0, 324, 320, 444)] =
  List.length (filter (fun parts => negb (List.length parts <? 5)%nat) example_labels) /\
  forall (k : nat) (box : Box),
    nth_error [(160, 180, 480, 300); (0, 324, 320, 444)] k = Some box ->
    exists parts xc yc w h,
      nth_error (filter (fun parts => negb (List.length parts <? 5)%nat) example_labels) k =
      Some parts /\
      example_float (field parts 1) = Some xc /\ example_float (field parts 2) = Some yc /\
      example_float (field parts 3) = Some w /\ example_float (field parts 4) = Some h /\
      exact_corners 640 480 xc yc w h = Some box.
Proof.
  apply (proj2 (proj2 (proj2 (blocking_boxes_lines Q example_float exact_corners
                                                   example_labels 640 480)))).
  vm_compute; reflexivity.
Defined.

Lemma mask_file_lines_witness :
  List.length [(0, 0, 1, 1); (3, 2, 2, 1)] =
  List.length (filter (fun parts => (List.length parts =? 4)%nat) example_mask) /\
  exists x1 y1 x2 y2,
    nth_error [(0, 0, 1, 1); (3, 2, 2, 1)] 1 = Some (x1, y1, x2, y2) /\
    example_int (field ["3"; "2"; "2"; "1"]%string 0) = Some x1 /\
    example_int (field ["3"; "2"; "2"; "1"]%string 1) = Some y1 /\
    example_int (field ["3"; "2"; "2"; "1"]%string 2) = Some x2 /\
    example_int (field ["3"; "2"; "2"; "1"]%string 3) = Some y2.
Proof.
  destruct (proj2 (proj2 (proj2 (mask_file_lines example_int example_mask))))
    as (_ & L & N).
  split.
  - apply L. vm_compute; reflexivity.
  - apply (N [(0, 0, 1, 1); (3, 2, 2, 1)] 1%nat).
    + vm_compute; reflexivity.
    + reflexivity.
Defined.

Lemma base_name_round_trip_witness :
  exists token,
    example_int token = Some 12 /\
    ~ In "_"%char (list_ascii_of_string token) /\
    (("clip_a"%string = EmptyString /\ "clip_a_12"%string = token) \/
     "clip_a_12"%string = ("clip_a" ++ "_" ++ token)%string).
Proof.
  apply (base_name_round_trip example_int "clip_a_12" "clip_a" 12).
  vm_compute; reflexivity.
Defined.

Lemma settings_different_self_witness :
  settings_different Q far_Q float_of_int_Q example_float example_text
                     (example_settings 2 "sequential" (5 # 10))
                     (example_settings 2 "sequential" (5 # 10)) = false.
Proof.
  apply (proj2 (settings_different_self Q far_Q float_of_int_Q example_float example_text
                                        (example_settings 2 "sequential" (5 # 10))
                                        far_Q_refl)).
  intros k Hin. unfold RELEVANT_KEYS in Hin. simpl in Hin.
  repeat (destruct Hin as [<-|Hin]; [vm_compute; discriminate|]).
  destruct Hin.
Defined.

Lemma settings_different_sym_witness :
  settings_different Q far_Q float_of_int_Q example_float example_text
                     (example_settings 2 "sequential" (5 # 10))
                     (example_settings 3 "Sequential" (6 # 10)) =
  settings_different Q far_Q float_of_int_Q example_float example_text
                     (example_settings 3 "Sequential" (6 # 10))
                     (example_settings 2 "sequential" (5 # 10)).
Proof.
  exact (settings_different_sym Q far_Q float_of_int_Q example_float example_text
                                (example_settings 2 "sequential" (5 # 10))
                                (example_settings 3 "Sequential" (6 # 10))
                                far_Q_sym).
Defined.

Lemma missing_key_is_a_change_witness :
  settings_different Q far_Q float_of_int_Q example_float example_text
                     (example_settings 2 "sequential" (5 # 10))
                     (fun k => if String.eqb k "expA" then None
                               else example_settings 2 "sequential" (5 # 10) k) = true.
Proof.
  apply (missing_key_is_a_change Q far_Q float_of_int_Q example_float example_text
                                 _ _ "expA").
  - simpl. tauto.
  - right. reflexivity.
Defined.

Lemma snapshot_copy_unchanged_witness :
  exists d,
    read_motion_settings Q example_float example_int lower (fun s => s) example_section =
    Some d /\
    (forall k, In k RELEVANT_KEYS -> d k <> None) /\
    settings_different Q far_Q float_of_int_Q example_float example_text d d = false.
Proof.
  eexists. split; [vm_compute; reflexivity|].
  apply (snapshot_copy_unchanged Q far_Q float_of_int_Q example_float example_text
                                 example_int lower (fun s => s) example_section).
  - exact far_Q_refl.
  - vm_compute; reflexivity.
Defined.

Example grey_boxes_example :
  apply_grey_boxes example_mat example_boxes =
  Some {| cols := 4;
          data := [grey; grey; (1, 2, 3); (1, 2, 3);
                   grey; grey; grey; grey;
                   (1, 2, 3); (1, 2, 3); grey; grey] |}.
Proof. vm_compute. reflexivity. Qed.

Example grey_boxes_overflow_example :
  apply_grey_boxes example_mat [(0, 0, 1, 1); (0, 0, 2147483648, 0)] = None.
Proof. vm_compute. reflexivity. Qed.

(** The written image: the mask box and, with the flag set, the box of the
    static label are grey; a malformed label aborts the item only when the
    flag is set. *)
Example motion_final_example :
  motion_final example_float exact_corners
               (make_params "sequential" "false" 0 4 [1%Q; 2%Q; 3%Q])
               example_mat [(0, 0, 1, 1)]
               (Some [["0"; "1.0"; "1.0"; "0.5"; "0.5"]]%string) 4 3 =
  Some {| cols := 4;
          data := [grey; grey; (1, 2, 3); (1, 2, 3);
                   grey; grey; (1, 2, 3); (1, 2, 3);
                   (1, 2, 3); (1, 2, 3); (1, 2, 3); grey] |} /\
  motion_final example_float exact_corners
               (make_params "sequential" "false" 0 4 [1%Q; 2%Q; 3%Q])
               example_mat [(0, 0, 1, 1)]
               (Some [["0"; "1.0"; "oops"; "0.5"; "0.5"]]%string) 4 3 = None /\
  motion_final example_float exact_corners
               (dyadic_params "sequential" "false" 4)
               example_mat [(0, 0, 1, 1)]
               (Some [["0"; "1.0"; "oops"; "0.5"; "0.5"]]%string) 4 3 =
  Some {| cols := 4;
          data := [grey; grey; (1, 2, 3); (1, 2, 3);
                   grey; grey; (1, 2, 3); (1, 2, 3);
                   (1, 2, 3); (1, 2, 3); (1, 2, 3); (1, 2, 3)] |}.
Proof. vm_compute. repeat split. Qed.

Example partial_window_example :
  generate_base_images no_resize example_gray cv2.blend ramp_video 9
                       (make_params "exponential" "false" 0 15 [1%Q; 2%Q; 3%Q]) =
  Return (Some (solid 100), Some (repeat (95, 105, 108) 16)).
Proof. vm_compute. reflexivity. Qed.

(** ** Loading and generating together *)

Section LoadAndGenerate.

Variable resize : cv2.Image -> Q -> cv2.Image.
Variable G : cv2.Image -> cv2.Plane.
Variable W : Q -> Q -> Q -> Z -> Z -> Z.

(** X20. Parameters returned by [load_config] need only a non-negative
    frame_skip and three multipliers to be valid for a window: on an opened
    video whose reported frames are all decodable and number at least
    frame_window, every frame index yields both images. *)
Theorem loaded_parameters_give_images (config : Config) (p : Params)
        (cap : VideoCapture) (frame_num : Z) :
  load_config config = Return p ->
  0 <= frame_skip p ->
  (3 <= List.length (rgb_multipliers p))%nat ->
  isOpened cap = true ->
  0 <= frame_num < CAP_PROP_FRAME_COUNT cap ->
  frame_window p <= CAP_PROP_FRAME_COUNT cap ->
  CAP_PROP_FRAME_COUNT cap <= Z.of_nat (List.length (decodable cap)) ->
  exists static motion,
    generate_base_images resize G W cap frame_num p = Return (Some static, Some motion).
Proof.
  intros Hc Hskip Hrgb Ho Hf Hfit Hdec.
  destruct (load_config_fields config p Hc) as (Hb & Hw & _ & _).
  pose proof (compute_base_window_in (strategy p) (expA p) (expB p)) as Hin.
  rewrite <- Hb in Hin. unfold base_windows in Hin. simpl in Hin.
  assert (Hn : 4 <= base_frame_window p) by lia.
  assert (Hstep : 1 <= step_of p) by (unfold step_of; lia).
  assert (Hfw : frame_window p = base_frame_window p * step_of p) by exact Hw.
  assert (Hm : 0 <= (base_frame_window p - 1) * step_of p) by nia.
  assert (Hs : start_frame p frame_num =
               Z.max 0 (frame_num - (base_frame_window p - 1) * step_of p))
    by reflexivity.
  destruct (read_window_collects resize cap frame_num p Hstep Hfw) as (s & H & E).
  pose proof (sample_full resize cap frame_num p Hstep ltac:(lia) Hf ltac:(lia) Hdec) as L.
  rewrite <- E in L.
  rewrite (guards_pass resize G W cap frame_num p Ho ltac:(lia) ltac:(lia)).
  destruct (after_guards_two resize G W cap frame_num p s H ltac:(lia))
    as (e & st & ds & g & _ & _ & _ & _ & ->).
  destruct (motion_image_returns W p ds g Hrgb) as (m & ->).
  now exists st, m.
Qed.

(** X21. The target frame matters only through the clamped start index:
    every target at or below (N-1)*step, negative ones included, produces
    the very result of target (N-1)*step. *)
Theorem clamped_targets_coincide (cap : VideoCapture) (frame_num : Z) (p : Params) :
  frame_num <= (base_frame_window p - 1) * step_of p ->
  generate_base_images resize G W cap frame_num p =
  generate_base_images resize G W cap ((base_frame_window p - 1) * step_of p) p.
Proof.
  intro H.
  assert (E : start_frame p frame_num =
              start_frame p ((base_frame_window p - 1) * step_of p)).
  { unfold start_frame. fold (step_of p). lia. }
  unfold generate_base_images. rewrite E. reflexivity.
Qed.

End LoadAndGenerate.

Lemma loaded_parameters_give_images_witness :
  exists static motion,
    generate_base_images no_resize example_gray cv2.blend ramp_video 7 sequential_params =
    Return (Some static, Some motion).
Proof.
  apply (loaded_parameters_give_images
           no_resize example_gray cv2.blend
           (example_config "sequential" "false" (5 # 10) (8 # 10))).
  - reflexivity.
  - vm_compute; discriminate.
  - vm_compute. apply le_n.
  - reflexivity.
  - split; vm_compute; [discriminate | reflexivity].
  - vm_compute; discriminate.
  - vm_compute; discriminate.
Defined.

Lemma clamped_targets_coincide_witness :
  generate_base_images no_resize example_gray cv2.blend ramp_video (-2) sequential_params =
  generate_base_images no_resize example_gray cv2.blend ramp_video ((4 - 1) * 1) sequential_params.
Proof.
  apply (clamped_targets_coincide no_resize example_gray cv2.blend ramp_video (-2) sequential_params).
  vm_compute; discriminate.
Defined.
